(** * boltons.cacheutils: BasicCache and LRU

    A shallow embedding of [src/boltons/cacheutils.py] and the properties
    of its two caches.

    Python objects that the code mutates in place (the four-element link
    lists of the LRU queue) live in an explicit store addressed by
    naturals, so that aliasing between [self.root], the links' PREV/NEXT
    fields and the values of the dictionary is kept.  Methods are
    computations in a state-and-exception monad: a raised exception keeps
    the mutations made before it, exactly as in Python. *)

From Stdlib Require Import ZArith String Ascii List.
From stdpp Require Import base option gmap strings list fin_maps.

Local Open Scope Z_scope.

(** ** Python values and exceptions *)

(** The objects used as keys and values: [None], [str] and [int].  They are
    hashable, and [==] on them is structural equality. *)
Inductive pyobj :=
  | PyNone
  | PyStr (s : string)
  | PyInt (z : Z).

Global Instance pyobj_eq_dec : EqDecision pyobj.
Proof. solve_decision. Defined.

Global Instance pyobj_countable : Countable pyobj.
Proof.
  refine (inj_countable'
    (λ o, match o with
          | PyNone => inl ()
          | PyStr s => inr (inl s)
          | PyInt z => inr (inr z)
          end)
    (λ x, match x with
          | inl _ => PyNone
          | inr (inl s) => PyStr s
          | inr (inr z) => PyInt z
          end) _).
  by intros [].
Defined.

Inductive exn :=
  | KeyError (k : pyobj)
  | IndexError
  | AttributeError (name : string)
  | Exception (msg : string).

Global Instance exn_eq_dec : EqDecision exn.
Proof. solve_decision. Defined.

(** [len(d)] of a dictionary, as a Python integer. *)
Definition len {V} (d : gmap pyobj V) : Z := Z.of_nat (size d).

(** ** Computations: state, exceptions, and dangling references

    [M S A] is a method body running on an object state [S].  It either
    returns or raises, and in both cases hands back the state it reached.
    [None] is reserved for a read through an address that holds no object;
    Python references cannot dangle, so a faithful run never yields it. *)

Inductive outcome (A : Type) :=
  | Returned (a : A)
  | Raised (e : exn).
Arguments Returned {A} a.
Arguments Raised {A} e.

Definition M (S A : Type) : Type := S → option (outcome A * S).

Section monad.
Context {S : Type}.

Definition ret {A} (a : A) : M S A := λ s, Some (Returned a, s).

Definition bind {A B} (m : M S A) (k : A → M S B) : M S B := λ s,
  match m s with
  | Some (Returned a, s') => k a s'
  | Some (Raised e, s') => Some (Raised e, s')
  | None => None
  end.

Definition raise {A} (e : exn) : M S A := λ s, Some (Raised e, s).

(** [try: body / except KeyError: handler]; other exceptions pass. *)
Definition try_except_KeyError {A} (body : M S A) (handler : exn → M S A)
    : M S A := λ s,
  match body s with
  | Some (Raised (KeyError k), s') => handler (KeyError k) s'
  | r => r
  end.

Definition gets {A} (f : S → A) : M S A := λ s, Some (Returned (f s), s).
Definition modify (f : S → S) : M S unit := λ s, Some (Returned tt, f s).

(** Statements run one after the other, collecting what they return and
    stopping at the first exception. *)
Fixpoint in_turn {A} (ms : list (M S A)) : M S (list A) :=
  match ms with
  | [] => ret []
  | m :: ms' =>
      bind m (λ a, bind (in_turn ms') (λ rest, ret (a :: rest)))
  end.

(** [for x in xs: body(x)] *)
Fixpoint for_each {A} (xs : list A) (body : A → M S unit) : M S unit :=
  match xs with
  | [] => ret tt
  | x :: xs' => bind (body x) (λ _, for_each xs' body)
  end.
End monad.

Declare Scope py_scope.
Delimit Scope py_scope with py.
Notation "x <- m ;; k" := (bind m (λ x, k))
  (at level 100, m at next level, right associativity) : py_scope.
Notation "m ;; k" := (bind m (λ _, k))
  (at level 100, right associativity) : py_scope.
Local Open Scope py_scope.

(** [str.upper] on ASCII text. *)
Definition ascii_upper (c : ascii) : ascii :=
  let n := nat_of_ascii c in
  if ((97 <=? n) && (n <=? 122))%nat then ascii_of_nat (n - 32) else c.

Fixpoint str_upper (s : string) : string :=
  match s with
  | EmptyString => EmptyString
  | String c s' => String (ascii_upper c) (str_upper s')
  end.

(** ** BasicCache *)

Module BasicCache.

(** The instance: the inherited dictionary and the three attributes set
    by [__init__].  [on_miss] is a callable; by contract it has no effect
    of its own, so it is a function that returns or raises. *)
Record t := mk {
  dict : gmap pyobj pyobj;
  size : Z;
  on_miss : pyobj → exn + pyobj;
  _queue : list pyobj;
}.

Definition set_dict (f : gmap pyobj pyobj → gmap pyobj pyobj) (s : t) : t :=
  mk (f (dict s)) (size s) (on_miss s) (_queue s).
Definition set_queue (f : list pyobj → list pyobj) (s : t) : t :=
  mk (dict s) (size s) (on_miss s) (f (_queue s)).

Definition __init__ (size : Z) (on_miss : pyobj → exn + pyobj) : t :=
  mk ∅ size on_miss [].

(** [self.on_miss(key)] *)
Definition call_on_miss (key : pyobj) : M t pyobj := λ s,
  match on_miss s key with
  | inr v => Some (Returned v, s)
  | inl e => Some (Raised e, s)
  end.

(** [dict.__setitem__] and [dict.__delitem__], which BasicCache inherits. *)
Definition dict_setitem (key value : pyobj) : M t unit :=
  modify (set_dict (insert key value)).

Definition dict_delitem (key : pyobj) : M t unit := λ s,
  match dict s !! key with
  | Some _ => Some (Returned tt, set_dict (delete key) s)
  | None => Some (Raised (KeyError key), s)
  end.

(** [deque.append] and [deque.popleft] *)
Definition queue_append (key : pyobj) : M t unit :=
  modify (set_queue (λ q, q ++ [key])).

Definition queue_popleft : M t pyobj := λ s,
  match _queue s with
  | old :: q => Some (Returned old, set_queue (λ _, q) s)
  | [] => Some (Raised IndexError, s)
  end.

Definition __missing__ (key : pyobj) : M t pyobj :=
  ret_ <- call_on_miss key ;;
  dict_setitem key ret_ ;;
  queue_append key ;;
  q <- gets _queue ;;
  size <- gets size ;;
  (if Z.of_nat (length q) >? size then
     old <- queue_popleft ;;
     dict_delitem old
   else ret tt) ;;
  ret ret_.

(** [self[key]]: the dictionary lookup, which calls [__missing__] for an
    absent key (the fallback [__getitem__] of the source does the same). *)
Definition __getitem__ (key : pyobj) : M t pyobj := λ s,
  match dict s !! key with
  | Some v => Some (Returned v, s)
  | None => __missing__ key s
  end.

(** [lambda k: k.upper()] *)
Definition upper (k : pyobj) : exn + pyobj :=
  match k with
  | PyStr s => inr (PyStr (str_upper s))
  | _ => inl (AttributeError "upper")
  end.

End BasicCache.

(** ** LRU *)

Module LRU.

(** A link is the Python list [[prev, next, key, result]]; the source
    names its four positions PREV, NEXT, KEY and RESULT.  PREV and NEXT
    hold references to links, hence addresses of the store. *)
Definition addr := nat.

Record link := Link {
  PREV : addr;
  NEXT : addr;
  KEY : pyobj;
  RESULT : pyobj;
}.

Global Instance link_eq_dec : EqDecision link.
Proof. solve_decision. Defined.

(** The instance.  [dict] is the inherited dictionary, from keys to
    (references to) links; [links] is the store of the link objects.  The
    lock guards every method and changes no result of a sequential run;
    [_id_gen] is never read.  Neither is modelled. *)
Record t := mk {
  hit_count : Z;
  miss_count : Z;
  soft_miss_count : Z;
  max_size : Z;
  root : addr;
  links : gmap addr link;
  dict : gmap pyobj addr;
}.

Definition set_hit_count (f : Z → Z) (s : t) : t :=
  mk (f (hit_count s)) (miss_count s) (soft_miss_count s) (max_size s)
     (root s) (links s) (dict s).
Definition set_miss_count (f : Z → Z) (s : t) : t :=
  mk (hit_count s) (f (miss_count s)) (soft_miss_count s) (max_size s)
     (root s) (links s) (dict s).
Definition set_soft_miss_count (f : Z → Z) (s : t) : t :=
  mk (hit_count s) (miss_count s) (f (soft_miss_count s)) (max_size s)
     (root s) (links s) (dict s).
Definition set_links (f : gmap addr link → gmap addr link) (s : t) : t :=
  mk (hit_count s) (miss_count s) (soft_miss_count s) (max_size s)
     (root s) (f (links s)) (dict s).
Definition set_dict (f : gmap pyobj addr → gmap pyobj addr) (s : t) : t :=
  mk (hit_count s) (miss_count s) (soft_miss_count s) (max_size s)
     (root s) (links s) (f (dict s)).

(** *** The store of links *)

(** [[prev, next, key, result]]: a new list object. *)
Definition alloc (l : link) : M t addr := λ s,
  let a := fresh (dom (links s)) in
  Some (Returned a, set_links (insert a l) s).

Definition load (a : addr) : M t link := λ s,
  match links s !! a with
  | Some l => Some (Returned l, s)
  | None => None
  end.

Definition store (a : addr) (f : link → link) : M t unit := λ s,
  match links s !! a with
  | Some l => Some (Returned tt, set_links (insert a (f l)) s)
  | None => None
  end.

(** [a[FIELD]] *)
Definition getfield {A} (field : link → A) (a : addr) : M t A :=
  l <- load a ;; ret (field l).

(** [a[PREV] = v] and the like *)
Definition set_PREV (a v : addr) : M t unit :=
  store a (λ l, Link v (NEXT l) (KEY l) (RESULT l)).
Definition set_NEXT (a v : addr) : M t unit :=
  store a (λ l, Link (PREV l) v (KEY l) (RESULT l)).
Definition set_KEY (a : addr) (v : pyobj) : M t unit :=
  store a (λ l, Link (PREV l) (NEXT l) v (RESULT l)).
Definition set_RESULT (a : addr) (v : pyobj) : M t unit :=
  store a (λ l, Link (PREV l) (NEXT l) (KEY l) v).

(** *** The inherited dictionary methods *)

Definition dict_setitem (key : pyobj) (link : addr) : M t unit :=
  modify (set_dict (insert key link)).

Definition dict_delitem (key : pyobj) : M t unit := λ s,
  match dict s !! key with
  | Some _ => Some (Returned tt, set_dict (delete key) s)
  | None => Some (Raised (KeyError key), s)
  end.

Definition dict_getitem (key : pyobj) : M t addr := λ s,
  match dict s !! key with
  | Some link => Some (Returned link, s)
  | None => Some (Raised (KeyError key), s)
  end.

(** [len(self)], [del self[key]] and [key in self] are not overridden. *)
Definition __len__ (s : t) : Z := len (dict s).
Definition __delitem__ (key : pyobj) : M t unit := dict_delitem key.
Definition __contains__ (key : pyobj) (s : t) : bool :=
  bool_decide (is_Some (dict s !! key)).

(** *** The methods of the class *)

Definition __setitem__ (key value : pyobj) : M t unit :=
  root <- gets root ;;
  n <- gets __len__ ;;
  max_size <- gets max_size ;;
  if n <? max_size then
    last <- getfield PREV root ;;
    link <- alloc (Link last root key value) ;;
    set_NEXT last link ;;
    set_PREV root link ;;
    dict_setitem key link
  else
    let oldroot := root in
    set_KEY oldroot key ;;
    set_RESULT oldroot value ;;
    (* the assignment below is to the local name only: [self.root] stays *)
    root <- getfield NEXT oldroot ;;
    oldkey <- getfield KEY root ;;
    oldresult <- getfield RESULT root ;;
    set_KEY root PyNone ;;
    set_RESULT root PyNone ;;
    dict_delitem oldkey ;;
    dict_setitem key oldroot.

(** The dictionary only ever holds links, so the test [link is not None]
    of the source always passes. *)
Definition __getitem__ (key : pyobj) : M t pyobj :=
  link <- try_except_KeyError (dict_getitem key)
            (λ e, modify (set_miss_count (Z.add 1)) ;; raise e) ;;
  root <- gets root ;;
  l <- load link ;;
  let link_prev := PREV l in
  let link_next := NEXT l in
  let result := RESULT l in
  set_NEXT link_prev link_next ;;
  set_PREV link_next link_prev ;;
  last <- getfield PREV root ;;
  set_NEXT last link ;;
  set_PREV root link ;;
  set_PREV link last ;;
  set_NEXT link root ;;
  modify (set_hit_count (Z.add 1)) ;;
  ret result.

Definition get (key default : pyobj) : M t pyobj :=
  try_except_KeyError (__getitem__ key)
    (λ _, modify (set_soft_miss_count (Z.add 1)) ;; ret default).

(** The first argument of [update]: the cache itself, a dictionary (it
    has [keys]; iterated in the order of the map), or a sequence of
    pairs. *)
Inductive update_arg :=
  | E_self
  | E_dict (d : gmap pyobj pyobj)
  | E_pairs (l : list (pyobj * pyobj)).

Fixpoint update_pairs (l : list (pyobj * pyobj)) (seen : gset pyobj)
    : M t unit :=
  match l with
  | [] => ret tt
  | (k, v) :: l' =>
      present <- gets (__contains__ k) ;;
      if bool_decide (k ∉ seen) && present then
        __delitem__ k ;;
        __setitem__ k v ;;
        update_pairs l' ({[k]} ∪ seen)
      else
        __setitem__ k v ;;
        update_pairs l' seen
  end.

Definition update (E : update_arg) (F : gmap string pyobj) : M t unit :=
  match E with
  | E_self => ret tt
  | E_dict d =>
      for_each (map_to_list d) (λ kv, __setitem__ kv.1 kv.2) ;;
      for_each (map_to_list F) (λ kv, __setitem__ (PyStr kv.1) kv.2)
  | E_pairs l =>
      update_pairs l ∅ ;;
      for_each (map_to_list F) (λ kv, __setitem__ (PyStr kv.1) kv.2)
  end.

(** Truth value of the [values] argument of [__init__]. *)
Definition truthy (values : option update_arg) : bool :=
  match values with
  | None => false
  | Some E_self => true
  | Some (E_dict d) => negb (bool_decide (d = ∅))
  | Some (E_pairs l) => negb (bool_decide (l = []))
  end.

(** The object as [__init__] finds it after its first six statements:
    counters at zero and the root link pointing to itself. *)
Definition blank (max_size : Z) : t :=
  mk 0 0 0 max_size 0%nat {[ 0%nat := Link 0%nat 0%nat PyNone PyNone ]} ∅.

(** [on_miss] is accepted and never stored or called. *)
Definition __init__ (max_size : Z) (on_miss : option (pyobj → exn + pyobj))
    (values : option update_arg) : option (outcome unit * t) :=
  match values with
  | Some E =>
      if truthy values then update E ∅ (blank max_size)
      else ret tt (blank max_size)
  | None => ret tt (blank max_size)
  end.

(** [(k, v)] for one item [(k, (_, _, _, v))] of the dictionary *)
Definition item_value (s : t) (kl : pyobj * addr) : option (pyobj * pyobj) :=
  l ← links s !! kl.2; Some (kl.1, RESULT l).

(** [dict([(k, v) for (k, (_, _, _, v)) in self.iteritems()])] *)
Definition _get_value_map (s : t) : option (gmap pyobj pyobj) :=
  items ← mapM (item_value s) (map_to_list (dict s));
  Some (list_to_map items).

(** The right operand of [==]: the cache itself, another cache, or a
    plain dictionary. *)
Inductive operand :=
  | Self
  | Cache (other : t)
  | Dict (d : gmap pyobj pyobj).

(** [LRU.__eq__(self, d)] for a dictionary [d]: the last line compares
    two dictionaries. *)
Definition eq_dict (self : t) (d : gmap pyobj pyobj) : option bool :=
  if negb (len d =? __len__ self) then Some false
  else vm ← _get_value_map self; Some (bool_decide (d = vm)).

(** When [other] is a cache, [other == self._get_value_map()] is
    [LRU.__eq__(other, ...)] in turn, with a dictionary on the right. *)
Definition __eq__ (self : t) (other : operand) : option bool :=
  match other with
  | Self => Some true
  | Cache o =>
      if negb (__len__ o =? __len__ self) then Some false
      else vm ← _get_value_map self; eq_dict o vm
  | Dict d => eq_dict self d
  end.

Definition __ne__ (self : t) (other : operand) : option bool :=
  negb <$> __eq__ self other.

End LRU.

(** ** Observations on an LRU instance *)

(** The links of the circular queue other than the root, in NEXT order:
    start after [root] and stop when [root] comes back.  A queue of [n]
    objects is walked in fewer than [n] steps. *)
Fixpoint walk (fuel : nat) (links : gmap LRU.addr LRU.link)
    (root a : LRU.addr) : list LRU.addr :=
  match fuel with
  | O => []
  | S fuel' =>
      if decide (a = root) then []
      else a :: match links !! a with
                | Some l => walk fuel' links root (LRU.NEXT l)
                | None => []
                end
  end.

Definition queue_links (s : LRU.t) : list LRU.addr :=
  match LRU.links s !! LRU.root s with
  | Some r => walk (size (LRU.links s)) (LRU.links s) (LRU.root s) (LRU.NEXT r)
  | None => []
  end.

(** The structural invariant in the words of the specification: as many
    keys in the index as links other than the sentinel, no more than the
    capacity, and the sentinel [self.root] not the entry of any key. *)
Definition invariant (s : LRU.t) : Prop :=
  size (LRU.dict s) = length (queue_links s)
  ∧ LRU.__len__ s ≤ LRU.max_size s
  ∧ map_Forall (λ _ link, link ≠ LRU.root s) (LRU.dict s).

Global Instance invariant_dec s : Decision (invariant s).
Proof. unfold invariant. apply _. Defined.

(** [self[kv[0]] = kv[1]], the body of a loop over pairs. *)
Definition assign (kv : pyobj * pyobj) : M LRU.t unit :=
  LRU.__setitem__ kv.1 kv.2.

(** The cache holds [n] keys, [k1] among them and [None] not, and [k1] is
    the key of the link after the root, which is not the root itself. *)
Definition filled (k1 : pyobj) (n : nat) (s : LRU.t) : Prop :=
  size (LRU.dict s) = n
  ∧ is_Some (LRU.dict s !! k1)
  ∧ LRU.dict s !! PyNone = None
  ∧ ∃ r f, LRU.links s !! LRU.root s = Some r
           ∧ LRU.NEXT r ≠ LRU.root s
           ∧ LRU.PREV r ≠ LRU.root s
           ∧ LRU.links s !! LRU.NEXT r = Some f
           ∧ LRU.KEY f = k1
           ∧ is_Some (LRU.links s !! LRU.PREV r).

(** The cache is full, [None] is not a key, and the link after the root is
    another link, whose key is [None]. *)
Definition wedged (s : LRU.t) : Prop :=
  LRU.max_size s ≤ LRU.__len__ s
  ∧ LRU.dict s !! PyNone = None
  ∧ ∃ r l, LRU.links s !! LRU.root s = Some r
           ∧ LRU.NEXT r ≠ LRU.root s
           ∧ LRU.links s !! LRU.NEXT r = Some l
           ∧ LRU.KEY l = PyNone.

(** ** Clients of an LRU instance *)

(** The calls of the public interface. *)
Inductive call :=
  | CallGet (key : pyobj)
  | CallGetDefault (key default : pyobj)
  | CallSet (key value : pyobj)
  | CallDel (key : pyobj)
  | CallUpdate (E : LRU.update_arg) (F : gmap string pyobj).

(** [lru[key]], [lru.get(key, default)], [lru[key] = value],
    [del lru[key]] and [lru.update(E, **F)]; the last three return
    [None]. *)
Definition run (c : call) : M LRU.t pyobj :=
  match c with
  | CallGet key => LRU.__getitem__ key
  | CallGetDefault key default => LRU.get key default
  | CallSet key value => LRU.__setitem__ key value ;; ret PyNone
  | CallDel key => LRU.__delitem__ key ;; ret PyNone
  | CallUpdate E F => LRU.update E F ;; ret PyNone
  end.

(** The states a client sees: the one it starts from and the one left by
    each further call, whether the call returned or raised. *)
Inductive reachable (s0 : LRU.t) : LRU.t → Prop :=
  | reachable_start : reachable s0 s0
  | reachable_call s c o s' :
      reachable s0 s → run c s = Some (o, s') → reachable s0 s'.

(** The capacity is [C] and the index holds at most [C] keys. *)
Definition within_capacity (C : Z) (s : LRU.t) : Prop :=
  LRU.max_size s = C ∧ LRU.__len__ s ≤ C.

(** From a state in [P], [m] ends in [R] when it returns and in [Q] when
    it raises. *)
Definition triple {A} (P : LRU.t → Prop) (m : M LRU.t A)
    (Q : LRU.t → Prop) (R : A → LRU.t → Prop) : Prop :=
  ∀ s o s', P s → m s = Some (o, s') →
    match o with Returned a => R a s' | Raised _ => Q s' end.

(** A property of the index and the capacity, whatever the links. *)
Definition on_index (F : gmap pyobj LRU.addr → Z → Prop) (s : LRU.t) : Prop :=
  F (LRU.dict s) (LRU.max_size s).

(** The capacity is [C] and [n] more keys fit in the index. *)
Definition room (C : Z) (n : Z) : gmap pyobj LRU.addr → Z → Prop :=
  λ d C', C' = C ∧ Z.of_nat (size d) + n ≤ C.

(** ** Clients of a BasicCache instance *)

(** The states left by lookups, one after the other, each of which
    returned or raised. *)
Inductive looked_up (s0 : BasicCache.t) : BasicCache.t → Prop :=
  | looked_up_start : looked_up s0 s0
  | looked_up_next s key o s' :
      looked_up s0 s → BasicCache.__getitem__ key s = Some (o, s') →
      looked_up s0 s'.

(** The queue holds each key of the dictionary once and no other, it is no
    longer than the size allows, and each stored value is what [on_miss]
    returns for its key. *)
Definition basic_inv (s : BasicCache.t) : Prop :=
  NoDup (BasicCache._queue s)
  ∧ (length (BasicCache._queue s) ≤ Z.to_nat (BasicCache.size s))%nat
  ∧ (∀ k, k ∈ BasicCache._queue s ↔ is_Some (BasicCache.dict s !! k))
  ∧ (∀ k v, BasicCache.dict s !! k = Some v → BasicCache.on_miss s k = inr v).

(** [string.letters] as in the test of the source: the lower-case letters,
    then the upper-case ones, each a string of one character. *)
Definition letters : list pyobj :=
  (λ c, PyStr (String c EmptyString))
    <$> list_ascii_of_string
          "abcdefghijklmnopqrstuvwxyzABCDEFGHIJKLMNOPQRSTUVWXYZ".

(** ** What a method leaves alone *)

(** [m] changes neither the index, nor the capacity, nor [self.root]. *)
Definition keeps_index {A} (m : M LRU.t A) : Prop :=
  ∀ s o s', m s = Some (o, s') →
    LRU.dict s' = LRU.dict s
    ∧ LRU.max_size s' = LRU.max_size s
    ∧ LRU.root s' = LRU.root s.

(** ** Contents of an LRU instance *)

(** The value a key stands for: the result field of the link the index
    has for it. *)
Definition stored (s : LRU.t) (k : pyobj) : option pyobj :=
  a ← LRU.dict s !! k; LRU.RESULT <$> LRU.links s !! a.

(** The objects that an assignment below capacity goes through exist: the
    root, the link before it, and the link of every key. *)
Definition linked (s : LRU.t) : Prop :=
  (∃ r, LRU.links s !! LRU.root s = Some r
        ∧ is_Some (LRU.links s !! LRU.PREV r))
  ∧ ∀ k a, LRU.dict s !! k = Some a → is_Some (LRU.links s !! a).

(** Every link of [s] is still there in [s'], with its key and result. *)
Definition same_payload (s s' : LRU.t) : Prop :=
  ∀ b l, LRU.links s !! b = Some l →
    ∃ l', LRU.links s' !! b = Some l'
          ∧ LRU.KEY l' = LRU.KEY l ∧ LRU.RESULT l' = LRU.RESULT l.

(** Every key of the index is the key written in its link, and the link
    of the root holds no key. *)
Definition keyed (s : LRU.t) : Prop :=
  (∃ r, LRU.links s !! LRU.root s = Some r ∧ LRU.KEY r = PyNone)
  ∧ ∀ k a, LRU.dict s !! k = Some a →
      ∃ l, LRU.links s !! a = Some l ∧ LRU.KEY l = k.


(** [key] is not in the index, which has [n] keys, and yet the link after
    the root, another link than the root, carries it. *)
Definition stale (key : pyobj) (n : nat) (s : LRU.t) : Prop :=
  size (LRU.dict s) = n
  ∧ LRU.dict s !! key = None
  ∧ ∃ r f, LRU.links s !! LRU.root s = Some r
           ∧ LRU.NEXT r ≠ LRU.root s
           ∧ LRU.PREV r ≠ LRU.root s
           ∧ LRU.links s !! LRU.NEXT r = Some f
           ∧ LRU.KEY f = key
           ∧ is_Some (LRU.links s !! LRU.PREV r).

(** ** Properties of BasicCache *)

Section basic_cache.
Import BasicCache.

Lemma getitem_hit key v s :
  dict s !! key = Some v → __getitem__ key s = Some (Returned v, s).
Proof. intros H. unfold __getitem__. by rewrite H. Qed.

Lemma getitem_miss key s :
  dict s !! key = None → __getitem__ key s = __missing__ key s.
Proof. intros H. unfold __getitem__. by rewrite H. Qed.

(** C4. With capacity 2 and [on_miss] the upper-casing function, looking up
    a, b, a, c returns A, B, A, C; the third lookup is a hit that leaves the
    whole instance, insertion queue included, as it was; the fourth evicts
    a, the key inserted first, and leaves exactly b and c. *)
Theorem basic_cache_fifo :
  let a := PyStr "a" in
  let b := PyStr "b" in
  let c := PyStr "c" in
  ∃ s2 s4,
    in_turn (__getitem__ <$> [a; b]) (__init__ 2 upper)
      = Some (Returned [PyStr "A"; PyStr "B"], s2)
    ∧ _queue s2 = [a; b]
    ∧ __getitem__ a s2 = Some (Returned (PyStr "A"), s2)
    ∧ __getitem__ c s2 = Some (Returned (PyStr "C"), s4)
    ∧ dict s4 = {[ b := PyStr "B"; c := PyStr "C" ]}
    ∧ dom (dict s4) = {[ b; c ]}
    ∧ _queue s4 = [b; c]
    ∧ in_turn (__getitem__ <$> [a; b; a; c]) (__init__ 2 upper)
      = Some (Returned [PyStr "A"; PyStr "B"; PyStr "A"; PyStr "C"], s4).
Proof.
  intros a b c.
  eexists (mk _ _ _ _), (mk _ _ _ _).
  repeat split; vm_compute; reflexivity.
Qed.

(** C8. When [on_miss] raises for an absent key, the lookup raises the very
    same exception and the instance is untouched: no entry for the key, the
    insertion queue as before. *)
Theorem on_miss_failure_propagates s key e :
  dict s !! key = None →
  on_miss s key = inl e →
  ∃ s', __getitem__ key s = Some (Raised e, s')
        ∧ s' = s ∧ dict s' !! key = None ∧ _queue s' = _queue s.
Proof.
  intros Habsent Hraise. exists s.
  rewrite (getitem_miss _ _ Habsent).
  unfold __missing__, bind, call_on_miss. rewrite Hraise. done.
Qed.

Lemma on_miss_failure_propagates_witness :
  let boom := λ _ : pyobj, inl (Exception "boom") : exn + pyobj in
  ∃ s', __getitem__ (PyStr "k") (__init__ 2 boom)
          = Some (Raised (Exception "boom"), s')
        ∧ s' = __init__ 2 boom
        ∧ dict s' !! PyStr "k" = None
        ∧ _queue s' = _queue (__init__ 2 boom).
Proof.
  intros boom.
  apply (on_miss_failure_propagates (__init__ 2 boom) (PyStr "k")
           (Exception "boom")); reflexivity.
Defined.

(** One lookup in the empty cache of size 0. *)
Lemma size0_lookup f key v :
  f key = inr v →
  __getitem__ key (__init__ 0 f) = Some (Returned v, __init__ 0 f).
Proof.
  intros Hf. unfold __getitem__, __init__. cbn [dict].
  rewrite lookup_empty.
  unfold __missing__, bind, call_on_miss. cbn. rewrite Hf. cbn.
  change (Z.of_nat 1 >? 0) with true. cbv iota.
  unfold queue_popleft, dict_delitem, set_queue, set_dict, ret. cbn.
  rewrite lookup_insert_eq. cbn.
  by rewrite delete_insert_eq, delete_empty.
Qed.

(** C9. In a cache built with size 0 every lookup calls [on_miss] and
    returns what it returns, none fails, and after each of them the cache
    is the empty one it was built as: the key just inserted is evicted at
    once. *)
Theorem size0_cache_stays_empty f keys vs :
  Forall2 (λ k v, f k = inr v) keys vs →
  in_turn (__getitem__ <$> keys) (__init__ 0 f)
    = Some (Returned vs, __init__ 0 f)
  ∧ dict (__init__ 0 f) = ∅ ∧ _queue (__init__ 0 f) = [].
Proof.
  intros H. split; [|done].
  induction H as [|k v keys vs Hk _ IH]; [done|].
  cbn [fmap list_fmap in_turn]. unfold bind at 1.
  rewrite (size0_lookup _ _ _ Hk).
  unfold bind at 1. fold (@fmap list _ _ _ __getitem__ keys).
  by rewrite IH.
Qed.

Lemma size0_cache_stays_empty_witness :
  in_turn (__getitem__ <$> [PyStr "a"; PyStr "b"; PyStr "a"])
      (__init__ 0 upper)
    = Some (Returned [PyStr "A"; PyStr "B"; PyStr "A"], __init__ 0 upper)
  ∧ dict (__init__ 0 upper) = ∅ ∧ _queue (__init__ 0 upper) = [].
Proof.
  apply (size0_cache_stays_empty upper).
  repeat constructor.
Defined.

End basic_cache.

(** ** Running a method one statement at a time *)

Section stepping.
Import LRU.

Lemma bind_returned {S A B} (m : M S A) (k : A → M S B) s a s' :
  m s = Some (Returned a, s') → bind m k s = k a s'.
Proof. intros H. unfold bind. by rewrite H. Qed.

Lemma try_except_returned {S A} (body : M S A) h s a s' :
  body s = Some (Returned a, s') →
  try_except_KeyError body h s = Some (Returned a, s').
Proof. intros H. unfold try_except_KeyError. by rewrite H. Qed.

Lemma getfield_some {A} (f : link → A) a l s :
  links s !! a = Some l → getfield f a s = Some (Returned (f l), s).
Proof. intros H. unfold getfield, bind, load. by rewrite H. Qed.

Lemma store_some a f l s :
  links s !! a = Some l →
  store a f s = Some (Returned tt, set_links (insert a (f l)) s).
Proof. intros H. unfold store. by rewrite H. Qed.

(** The address of a new link holds no link yet. *)
Lemma fresh_link_absent (lk : gmap addr link) : lk !! fresh (dom lk) = None.
Proof. apply not_elem_of_dom, is_fresh. Qed.

Lemma for_each_snoc {S A} (xs : list A) (x : A) (body : A → M S unit) s s' :
  for_each xs body s = Some (Returned tt, s') →
  for_each (xs ++ [x]) body s = body x s'.
Proof.
  revert s. induction xs as [|y xs IH]; intros s; cbn.
  - intros [= ->]. unfold bind. by destruct (body x s') as [[[[]|]?]|].
  - unfold bind. destruct (body y s) as [[[[]|] s1]|]; [|done..].
    apply IH.
Qed.

End stepping.

(** The three reads that open [__setitem__]. *)
Ltac enter :=
  unfold LRU.__setitem__;
  erewrite bind_returned by reflexivity;
  erewrite bind_returned by reflexivity;
  erewrite bind_returned by reflexivity.

(** A lookup in a store written as a sequence of updates. *)
Ltac look :=
  cbn; repeat (rewrite lookup_insert_eq || rewrite lookup_insert_ne by done);
  first [reflexivity | eassumption].

Ltac step_load := erewrite bind_returned by (apply getfield_some; look).
Ltac step_store := erewrite bind_returned by (apply store_some; look).
Ltac step_pure := erewrite bind_returned by reflexivity.

(** The state as a record, with the projections of records computed. *)
Ltac tidy :=
  cbv [LRU.set_dict LRU.set_links LRU.set_hit_count LRU.set_miss_count
       LRU.set_soft_miss_count LRU.dict_setitem modify];
  cbn [LRU.hit_count LRU.miss_count LRU.soft_miss_count LRU.max_size
       LRU.root LRU.links LRU.dict LRU.PREV LRU.NEXT LRU.KEY LRU.RESULT].

(** The allocation of a link whose address has been named [a]. *)
Ltac step_alloc a :=
  erewrite bind_returned by reflexivity; cbn [LRU.links];
  change (fresh (dom _)) with a.

(** ** Properties of LRU *)

Section lru.
Import LRU.

(** The constructor without initial values. *)
Lemma init_no_values max_size :
  __init__ max_size None None = Some (Returned tt, blank max_size).
Proof. reflexivity. Qed.

(** C2 as stated fails.  The new cache satisfies the invariant.  Assigning twice to the same key below
    capacity leaves one key in the index and two links in the queue.  An
    eviction stores the new pair in [self.root] and registers that very
    link in the index, so the sentinel becomes a live entry. *)
Theorem setitem_breaks_invariant :
  invariant (blank 2)
  ∧ (∃ s,
       (__setitem__ (PyStr "a") (PyInt 1) ;;
        __setitem__ (PyStr "a") (PyInt 2)) (blank 2) = Some (Returned tt, s)
       ∧ size (dict s) = 1%nat
       ∧ length (queue_links s) = 2%nat
       ∧ ¬ invariant s)
  ∧ (∃ s,
       (__setitem__ (PyStr "hi") (PyInt 0) ;;
        __setitem__ (PyStr "bye") (PyInt 1)) (blank 1) = Some (Returned tt, s)
       ∧ dict s !! PyStr "bye" = Some (root s)
       ∧ (KEY <$> links s !! root s) = Some (PyStr "bye")
       ∧ ¬ invariant s).
Proof.
  split; [apply (bool_decide_unpack _); vm_compute; exact I|].
  split; eexists; (split; [vm_compute; reflexivity|]).
  - split; [vm_compute; reflexivity|].
    split; [vm_compute; reflexivity|].
    apply (bool_decide_eq_false_1 _). vm_compute. reflexivity.
  - split; [vm_compute; reflexivity|].
    split; [vm_compute; reflexivity|].
    apply (bool_decide_eq_false_1 _). vm_compute. reflexivity.
Qed.

End lru.

Section lru_lookup.
Import LRU.

(** A hard miss: the key is absent, [miss_count] goes up and [KeyError]
    is raised; nothing else changes. *)
Lemma getitem_absent key s :
  dict s !! key = None →
  __getitem__ key s
    = Some (Raised (KeyError key), set_miss_count (Z.add 1) s).
Proof.
  intros H. unfold __getitem__, bind, try_except_KeyError, dict_getitem.
  by rewrite H.
Qed.

(** One call of [get] on an absent key. *)
Lemma get_absent key default s :
  dict s !! key = None →
  get key default s
    = Some (Returned default,
            set_soft_miss_count (Z.add 1) (set_miss_count (Z.add 1) s)).
Proof.
  intros H. unfold get, try_except_KeyError.
  by rewrite (getitem_absent _ _ H).
Qed.

(** C5 as stated fails: on the new cache of capacity 2, [get] of the absent
    key a returns the default, and [miss_count] has gone from 0 to 1. *)
Lemma get_default_counts_a_hard_miss :
  ∃ s',
    dict (blank 2) !! PyStr "a" = None
    ∧ get (PyStr "a") (PyInt 7) (blank 2) = Some (Returned (PyInt 7), s')
    ∧ miss_count (blank 2) = 0
    ∧ miss_count s' = 1
    ∧ miss_count s' ≠ miss_count (blank 2).
Proof.
  eexists. split; [reflexivity|]. split; [reflexivity|]. done.
Qed.

(** C5, amended.  [n] calls in a row of [get] on an absent key all return
    the default; the index, the links, the root, the capacity and
    [hit_count] are unchanged, and [miss_count] and [soft_miss_count] have
    each gone up by [n], one per call. *)
Theorem get_default_on_absent_key key default s (n : nat) :
  dict s !! key = None →
  in_turn (replicate n (get key default)) s
    = Some (Returned (replicate n default),
            mk (hit_count s) (miss_count s + Z.of_nat n)
               (soft_miss_count s + Z.of_nat n)
               (max_size s) (root s) (links s) (dict s)).
Proof.
  revert s. induction n as [|n IH]; intros s H.
  - cbn. unfold ret. do 3 f_equal. destruct s; cbn. f_equal; lia.
  - cbn [replicate in_turn]. unfold bind at 1.
    rewrite (get_absent _ _ _ H).
    unfold bind at 1. rewrite IH by exact H. cbn.
    unfold ret. do 3 f_equal. lia. lia.
Qed.

Lemma get_default_on_absent_key_witness :
  in_turn (replicate 3 (get (PyStr "a") (PyInt 7))) (blank 2)
    = Some (Returned (replicate 3 (PyInt 7)),
            mk (hit_count (blank 2)) (miss_count (blank 2) + Z.of_nat 3)
               (soft_miss_count (blank 2) + Z.of_nat 3)
               (max_size (blank 2)) (root (blank 2)) (links (blank 2))
               (dict (blank 2))).
Proof.
  apply (get_default_on_absent_key (PyStr "a") (PyInt 7) (blank 2) 3).
  reflexivity.
Defined.

End lru_lookup.

Section lru_delete.
Import LRU.

(** [del self[key]] is the inherited dictionary deletion.  On a present
    key it removes the key from the index and touches nothing else: the
    root, the links and hence the queue are as before, the link of the
    deleted key included.  On an absent key it raises [KeyError] and the
    cache is unchanged. *)
Lemma delitem_index_only s key :
  (∀ link, dict s !! key = Some link →
     ∃ s', __delitem__ key s = Some (Returned tt, s')
           ∧ dict s' = delete key (dict s)
           ∧ dict s' !! key = None
           ∧ links s' = links s
           ∧ root s' = root s
           ∧ queue_links s' = queue_links s
           ∧ (hit_count s', miss_count s', soft_miss_count s', max_size s')
             = (hit_count s, miss_count s, soft_miss_count s, max_size s))
  ∧ (dict s !! key = None →
     __delitem__ key s = Some (Raised (KeyError key), s)).
Proof.
  unfold __delitem__, dict_delitem. split.
  - intros link H. rewrite H. eexists. split; [reflexivity|].
    cbn. by rewrite lookup_delete_eq.
  - intros H. by rewrite H.
Qed.

End lru_delete.

Section lru_equality.
Import LRU.

Lemma mapM_item_value_keys s (l : list (pyobj * addr)) items :
  mapM (item_value s) l = Some items → items.*1 = l.*1.
Proof.
  rewrite mapM_Some. induction 1 as [|[k a] [k' v] l items Hx _ IH]; [done|].
  cbn. f_equal; [|exact IH].
  unfold item_value in Hx. cbn in Hx.
  destruct (links s !! a); cbn in Hx; congruence.
Qed.

(** The value map has one pair per key of the index. *)
Lemma value_map_size s vm :
  _get_value_map s = Some vm → len vm = __len__ s.
Proof.
  unfold _get_value_map, __len__, len. intros H.
  destruct (mapM _ _) as [items|] eqn:Hitems; [|done].
  cbn in H. injection H as <-.
  pose proof (mapM_item_value_keys s _ _ Hitems) as Hkeys.
  rewrite map_size_list_to_map.
  - rewrite <- (length_map_to_list (dict s)).
    by rewrite <- (length_fmap fst items), Hkeys, length_fmap.
  - rewrite Hkeys. apply NoDup_fst_map_to_list.
Qed.

(** The comparison with a dictionary. *)
Lemma eq_dict_spec s vm d :
  _get_value_map s = Some vm →
  eq_dict s d = Some (bool_decide (d = vm)).
Proof.
  intros Hvm. unfold eq_dict.
  destruct (len d =? __len__ s) eqn:Hlen; cbn.
  - by rewrite Hvm.
  - f_equal. symmetry. apply bool_decide_eq_false. intros ->.
    apply Z.eqb_neq in Hlen. by rewrite (value_map_size _ _ Hvm) in Hlen.
Qed.

(** C10. A cache equals a plain dictionary exactly when the dictionary has
    the length of the cache and is, pair for pair, its value map; with a
    different length the answer is False. *)
Theorem lru_eq_plain_dict s vm d :
  _get_value_map s = Some vm →
  (__eq__ s (Dict d) = Some true ↔ len d = __len__ s ∧ d = vm)
  ∧ (len d ≠ __len__ s → __eq__ s (Dict d) = Some false)
  ∧ (∃ b, __eq__ s (Dict d) = Some b).
Proof.
  intros Hvm. cbn [__eq__]. split; [|split].
  - rewrite (eq_dict_spec _ _ _ Hvm). split.
    + intros [= H]. apply bool_decide_eq_true in H as ->.
      by rewrite (value_map_size _ _ Hvm).
    + intros [_ ->]. by rewrite bool_decide_eq_true_2.
  - intros Hlen. unfold eq_dict.
    apply Z.eqb_neq in Hlen. by rewrite Hlen.
  - rewrite (eq_dict_spec _ _ _ Hvm). eauto.
Qed.

Lemma lru_eq_plain_dict_witness :
  let s := blank 2 in
  let d : gmap pyobj pyobj := {[ PyStr "a" := PyInt 1 ]} in
  (__eq__ s (Dict d) = Some true ↔ len d = __len__ s ∧ d = ∅)
  ∧ (len d ≠ __len__ s → __eq__ s (Dict d) = Some false)
  ∧ (∃ b, __eq__ s (Dict d) = Some b).
Proof.
  intros s d. apply (lru_eq_plain_dict s ∅ d). reflexivity.
Defined.

(** C7. Two caches are equal exactly when their value maps are the same
    set of pairs; capacity, order of the queue and counters play no part,
    as nothing is assumed of them.  LRU(3, {a:1}) equals LRU(10, {a:1}). *)
Theorem lru_eq_same_pairs c1 c2 vm1 vm2 :
  _get_value_map c1 = Some vm1 →
  _get_value_map c2 = Some vm2 →
  __eq__ c1 (Cache c2) = Some (bool_decide (vm1 = vm2))
  ∧ (__eq__ c1 (Cache c2) = Some true ↔ vm1 = vm2)
  ∧ (∃ s3 s10,
       __init__ 3 None (Some (E_dict {[ PyStr "a" := PyInt 1 ]}))
         = Some (Returned tt, s3)
       ∧ __init__ 10 None (Some (E_dict {[ PyStr "a" := PyInt 1 ]}))
         = Some (Returned tt, s10)
       ∧ max_size s3 ≠ max_size s10
       ∧ __eq__ s3 (Cache s10) = Some true).
Proof.
  intros H1 H2.
  assert (__eq__ c1 (Cache c2) = Some (bool_decide (vm1 = vm2))) as Heq.
  { cbn [__eq__].
    destruct (__len__ c2 =? __len__ c1) eqn:Hlen; cbn.
    - rewrite H1. cbn. apply (eq_dict_spec _ _ _ H2).
    - f_equal. symmetry. apply bool_decide_eq_false. intros ->.
      apply Z.eqb_neq in Hlen.
      by rewrite <- (value_map_size _ _ H1), <- (value_map_size _ _ H2)
        in Hlen. }
  split; [exact Heq|]. split.
  - rewrite Heq. split.
    + intros [= H]. by apply bool_decide_eq_true in H.
    + intros ->. by rewrite bool_decide_eq_true_2.
  - do 2 eexists.
    split; [vm_compute; reflexivity|].
    split; [vm_compute; reflexivity|].
    split; [done|].
    vm_compute; reflexivity.
Qed.

Lemma lru_eq_same_pairs_witness :
  let a := PyStr "a" in
  let c1 := mk 0 0 0 3 0%nat
              {[ 0%nat := Link 1%nat 1%nat PyNone PyNone;
                 1%nat := Link 0%nat 0%nat a (PyInt 1) ]}
              {[ a := 1%nat ]} in
  let c2 := mk 4 2 1 10 0%nat
              {[ 0%nat := Link 2%nat 1%nat PyNone PyNone;
                 1%nat := Link 0%nat 2%nat (PyStr "b") (PyInt 2);
                 2%nat := Link 1%nat 0%nat a (PyInt 1) ]}
              {[ a := 2%nat; PyStr "b" := 1%nat ]} in
  let vm1 : gmap pyobj pyobj := {[ a := PyInt 1 ]} in
  let vm2 : gmap pyobj pyobj := {[ a := PyInt 1; PyStr "b" := PyInt 2 ]} in
  __eq__ c1 (Cache c2) = Some (bool_decide (vm1 = vm2))
  ∧ (__eq__ c1 (Cache c2) = Some true ↔ vm1 = vm2)
  ∧ (∃ s3 s10,
       __init__ 3 None (Some (E_dict {[ PyStr "a" := PyInt 1 ]}))
         = Some (Returned tt, s3)
       ∧ __init__ 10 None (Some (E_dict {[ PyStr "a" := PyInt 1 ]}))
         = Some (Returned tt, s10)
       ∧ max_size s3 ≠ max_size s10
       ∧ __eq__ s3 (Cache s10) = Some true).
Proof.
  intros a c1 c2 vm1 vm2.
  apply (lru_eq_same_pairs c1 c2 vm1 vm2); vm_compute; reflexivity.
Defined.

End lru_equality.

(** ** Evictions, for every capacity

    Filling a new cache of capacity [C] with [C] distinct keys and
    assigning one more key evicts the oldest key; from then on the link
    after [self.root] has key [None], and every further assignment
    raises [KeyError(None)]. *)

Section lru_eviction.
Import LRU.

(** In a wedged cache every assignment raises [KeyError(None)]. *)
Lemma setitem_wedged key value s :
  wedged s → ∃ s', __setitem__ key value s = Some (Raised (KeyError PyNone), s').
Proof.
  destruct s as [hc mc sc C rt lk d].
  intros (Hfull & Hnone & r & l & Hr & Hne & Hl & Hkey). cbn in * |-.
  enter. cbn.
  destruct (Z.ltb_spec (__len__ (mk hc mc sc C rt lk d)) C) as [?|_]; [lia|].
  unfold set_KEY, set_RESULT.
  erewrite bind_returned by (apply store_some; exact Hr).
  erewrite bind_returned by (apply store_some; cbn; apply lookup_insert_eq).
  erewrite bind_returned by (apply getfield_some; cbn; apply lookup_insert_eq).
  cbn [NEXT].
  erewrite bind_returned
    by (apply getfield_some; cbn; by rewrite !lookup_insert_ne by done).
  erewrite bind_returned
    by (apply getfield_some; cbn; by rewrite !lookup_insert_ne by done).
  erewrite bind_returned
    by (apply store_some; cbn; by rewrite !lookup_insert_ne by done).
  erewrite bind_returned by (apply store_some; cbn; apply lookup_insert_eq).
  rewrite Hkey. unfold bind, dict_delitem. cbn. rewrite Hnone. eauto.
Qed.

(** The first eviction succeeds and leaves the cache wedged. *)
Lemma setitem_evict k1 n key value s :
  filled k1 n s → max_size s ≤ Z.of_nat n →
  key ≠ PyNone → dict s !! key = None →
  ∃ s', __setitem__ key value s = Some (Returned tt, s') ∧ wedged s'.
Proof.
  destruct s as [hc mc sc C rt lk d].
  intros (Hn & [a1 Hk1] & Hnone & r & f & Hr & Hne & _ & Hf & Hkey & _).
  intros Hfull Hkn Hfresh. cbn in * |-.
  enter. cbn.
  destruct (Z.ltb_spec (__len__ (mk hc mc sc C rt lk d)) C) as [?|_].
  { unfold __len__, len in *. cbn in *. lia. }
  unfold set_KEY, set_RESULT.
  erewrite bind_returned by (apply store_some; exact Hr).
  erewrite bind_returned by (apply store_some; cbn; apply lookup_insert_eq).
  erewrite bind_returned by (apply getfield_some; cbn; apply lookup_insert_eq).
  cbn [NEXT].
  erewrite bind_returned
    by (apply getfield_some; cbn; by rewrite !lookup_insert_ne by done).
  erewrite bind_returned
    by (apply getfield_some; cbn; by rewrite !lookup_insert_ne by done).
  erewrite bind_returned
    by (apply store_some; cbn; by rewrite !lookup_insert_ne by done).
  erewrite bind_returned by (apply store_some; cbn; apply lookup_insert_eq).
  rewrite Hkey. unfold bind, dict_delitem, dict_setitem, modify. cbn.
  rewrite Hk1. eexists. split; [reflexivity|].
  assert (k1 ≠ key) as Hk1key by congruence.
  assert (k1 ≠ PyNone) as Hk1none by congruence.
  unfold wedged, __len__, len. cbn. split; [|split].
  - rewrite map_size_insert_None by (by rewrite lookup_delete_ne).
    pose proof (map_size_delete k1 d) as Hsz. rewrite Hk1 in Hsz. cbn in Hsz.
    assert (size d ≠ 0%nat).
    { intros Hz. apply map_size_empty_inv in Hz. by subst. }
    lia.
  - rewrite lookup_insert_ne by done. by rewrite lookup_delete_ne.
  - do 2 eexists. split.
    { rewrite !lookup_insert_ne by done.
      rewrite lookup_insert_eq. reflexivity. }
    cbn. split; [done|]. split; [by rewrite lookup_insert_eq|reflexivity].
Qed.

(** Below capacity a new key is appended and the cache stays filled. *)
Lemma setitem_more k1 n key value s :
  filled k1 n s → Z.of_nat n < max_size s →
  key ≠ PyNone → dict s !! key = None →
  ∃ s' a, __setitem__ key value s = Some (Returned tt, s')
          ∧ filled k1 (S n) s'
          ∧ max_size s' = max_size s
          ∧ dict s' = <[key:=a]> (dict s).
Proof.
  destruct s as [hc mc sc C rt lk d].
  intros (Hn & [a1 Hk1] & Hnone & r & f & Hr & Hne & Hpe & Hf & Hkey & [pl Hpl]).
  intros Hroom Hkn Hfresh. cbn in * |-.
  pose proof (fresh_link_absent lk) as Ha.
  set (a := fresh (dom lk)) in *.
  assert (rt ≠ a) as Hrta by congruence.
  assert (PREV r ≠ a) as Hpa by congruence.
  assert (k1 ≠ key) as Hk1key by congruence.
  enter. cbn.
  destruct (Z.ltb_spec (__len__ (mk hc mc sc C rt lk d)) C) as [_|?].
  2:{ unfold __len__, len in *. cbn in *. lia. }
  erewrite bind_returned by (apply getfield_some; exact Hr).
  erewrite bind_returned by reflexivity.
  cbn [links]. fold a. clearbody a. unfold set_NEXT, set_PREV.
  erewrite bind_returned
    by (apply store_some; cbn; rewrite lookup_insert_ne by done; exact Hpl).
  erewrite bind_returned
    by (apply store_some; cbn; rewrite !lookup_insert_ne by done; exact Hr).
  unfold dict_setitem, modify. cbn.
  eexists _, a. split; [reflexivity|].
  split; [|done].
  unfold filled. cbn. split; [|split; [|split]].
  - by rewrite map_size_insert_None, Hn.
  - rewrite lookup_insert_ne by done. eauto.
  - by rewrite lookup_insert_ne.
  - destruct (decide (NEXT r = PREV r)) as [Heq|Hneq].
    + eexists _, _. split; [apply lookup_insert_eq|]. cbn.
      split; [done|]. split; [done|].
      rewrite (lookup_insert_ne _ rt (NEXT r)) by done.
      rewrite Heq, lookup_insert_eq.
      split; [reflexivity|]. cbn. split; [congruence|].
      rewrite lookup_insert_ne by done. rewrite lookup_insert_ne by done.
      rewrite lookup_insert_eq. eauto.
    + eexists _, _. split; [apply lookup_insert_eq|]. cbn.
      split; [done|]. split; [done|].
      rewrite (lookup_insert_ne _ rt (NEXT r)) by done.
      rewrite lookup_insert_ne by done.
      rewrite lookup_insert_ne by congruence.
      split; [exact Hf|]. split; [done|].
      rewrite lookup_insert_ne by done. rewrite lookup_insert_ne by done.
      rewrite lookup_insert_eq. eauto.
Qed.

(** The first assignment to a new cache of positive capacity. *)
Lemma setitem_first C key value :
  0 < C → key ≠ PyNone →
  ∃ s' a, __setitem__ key value (blank C) = Some (Returned tt, s')
          ∧ filled key 1 s'
          ∧ max_size s' = C
          ∧ dict s' = {[ key := a ]}.
Proof.
  intros HC Hkn. unfold blank.
  set (lk := {[ 0%nat := Link 0%nat 0%nat PyNone PyNone ]} : gmap addr link).
  pose proof (fresh_link_absent lk) as Ha.
  set (a := fresh (dom lk)) in *.
  assert (0%nat ≠ a) as H0a.
  { intros <-. unfold lk in Ha. by rewrite lookup_singleton_eq in Ha. }
  enter. cbn.
  destruct (Z.ltb_spec (__len__ (mk 0 0 0 C 0%nat lk ∅)) C) as [_|?].
  2:{ unfold __len__, len in *. cbn in *. rewrite map_size_empty in *. lia. }
  erewrite bind_returned by (apply getfield_some; apply lookup_singleton_eq).
  erewrite bind_returned by reflexivity.
  cbn [links]. fold a. clearbody a. unfold set_NEXT, set_PREV. cbn [PREV].
  erewrite bind_returned
    by (apply store_some; cbn; rewrite lookup_insert_ne by done;
        apply lookup_singleton_eq).
  erewrite bind_returned by (apply store_some; cbn; apply lookup_insert_eq).
  unfold dict_setitem, modify. cbn.
  eexists _, a. split; [reflexivity|].
  split; [|done].
  unfold filled. cbn. split; [|split; [|split]].
  - by rewrite map_size_insert_None, map_size_empty.
  - rewrite lookup_insert_eq. eauto.
  - by rewrite lookup_insert_ne.
  - eexists _, _. split; [apply lookup_insert_eq|]. cbn.
    split; [done|]. split; [done|].
    rewrite !(lookup_insert_ne _ 0%nat a) by done.
    rewrite lookup_insert_eq. split; [reflexivity|]. cbn. eauto.
Qed.

(** Assigning a list of new, distinct keys that fit in the cache. *)
Lemma fill_more k1 (kvs : list (pyobj * pyobj)) : ∀ n s,
  filled k1 n s →
  Z.of_nat (n + length kvs) ≤ max_size s →
  NoDup kvs.*1 → PyNone ∉ kvs.*1 →
  (∀ k, k ∈ kvs.*1 → dict s !! k = None) →
  ∃ s', for_each kvs assign s = Some (Returned tt, s')
        ∧ filled k1 (n + length kvs) s'
        ∧ max_size s' = max_size s
        ∧ (∀ k, k ∉ kvs.*1 → dict s !! k = None → dict s' !! k = None).
Proof.
  induction kvs as [|[k v] kvs IH]; intros n s Hfilled Hroom Hnodup Hnone Hfresh.
  - exists s. cbn. rewrite Nat.add_0_r. eauto.
  - cbn in Hroom, Hnodup, Hnone, Hfresh.
    apply NoDup_cons in Hnodup as [Hk Hnodup].
    apply not_elem_of_cons in Hnone as [Hkn Hnone].
    destruct (setitem_more k1 n k v s Hfilled) as (s1 & a & Hrun & Hf1 & Hmax & Hd);
      [lia|done|apply Hfresh; left|].
    destruct (IH (S n) s1 Hf1) as (s' & Hrun' & Hf' & Hmax' & Hd');
      [rewrite Hmax; lia|done|done| |].
    { intros k' Hk'. rewrite Hd, lookup_insert_ne by (by intros ->).
      apply Hfresh. by right. }
    exists s'. cbn [for_each length]. unfold bind, assign at 1.
    cbn [fst snd]. rewrite Hrun.
    split; [exact Hrun'|].
    replace (n + S (length kvs))%nat with (S n + length kvs)%nat by lia.
    split; [done|]. split; [congruence|].
    intros k' Hk' Hs. rewrite fmap_cons in Hk'.
    apply not_elem_of_cons in Hk' as [Hne Hk'].
    apply Hd'; [done|]. by rewrite Hd, lookup_insert_ne.
Qed.

(** C1, at the inputs where the code departs from it.  For every capacity
    [C = 1 + length kvs]: in a new cache the [C] assignments of
    [kv0 :: kvs] and the evicting assignment [kv] succeed when the keys are
    distinct and not [None], and whatever is assigned next does not evict
    but raises [KeyError(None)]: [self.root] was not moved to the link
    emptied by the first eviction, and that link, whose key is [None], is
    the one the second eviction takes for the oldest. *)
Theorem setitem_raises_after_first_eviction
    (kv0 : pyobj * pyobj) (kvs : list (pyobj * pyobj)) (kv kv' : pyobj * pyobj) :
  NoDup (kv0 :: kvs ++ [kv]).*1 →
  PyNone ∉ (kv0 :: kvs ++ [kv]).*1 →
  ∃ s0 s s',
    __init__ (Z.of_nat (S (length kvs))) None None = Some (Returned tt, s0)
    ∧ for_each (kv0 :: kvs ++ [kv]) assign s0 = Some (Returned tt, s)
    ∧ assign kv' s = Some (Raised (KeyError PyNone), s').
Proof.
  intros Hnodup Hnone.
  exists (blank (Z.of_nat (S (length kvs)))).
  cut (∃ s s',
    for_each (kv0 :: kvs ++ [kv]) assign (blank (Z.of_nat (S (length kvs))))
      = Some (Returned tt, s)
    ∧ assign kv' s = Some (Raised (KeyError PyNone), s')).
  { intros (s & s' & H1 & H2). exists s, s'. by rewrite init_no_values. }
  rewrite fmap_cons, fmap_app in Hnodup, Hnone. cbn in Hnodup, Hnone.
  apply NoDup_cons in Hnodup as [Hk0 Hnodup].
  apply NoDup_app in Hnodup as (Hnodup & Hdisj & _).
  apply not_elem_of_cons in Hnone as [Hn0 Hnone].
  apply not_elem_of_app in Hnone as [Hnone Hnk].
  apply not_elem_of_app in Hk0 as [Hk0 Hk0k].
  destruct (setitem_first (Z.of_nat (S (length kvs))) kv0.1 kv0.2)
    as (s1 & a & Hrun1 & Hf1 & Hmax1 & Hd1); [lia|done|].
  destruct (fill_more kv0.1 kvs 1 s1 Hf1) as (s2 & Hrun2 & Hf2 & Hmax2 & Hd2);
    [rewrite Hmax1; lia|done|done| |].
  { intros k Hk. rewrite Hd1. apply lookup_singleton_ne. by intros <-. }
  destruct (setitem_evict kv0.1 _ kv.1 kv.2 s2 Hf2) as (s3 & Hrun3 & Hw);
    [rewrite Hmax2, Hmax1; lia|set_solver| |].
  { apply Hd2; [intros Hin; by apply (Hdisj _ Hin), list_elem_of_singleton|].
    rewrite Hd1. apply lookup_singleton_ne. set_solver. }
  destruct (setitem_wedged kv'.1 kv'.2 s3 Hw) as [s4 Hrun4].
  exists s3, s4. split; [|exact Hrun4].
  cbn [for_each]. unfold bind, assign at 1. rewrite Hrun1.
  rewrite (for_each_snoc _ _ _ _ _ Hrun2). exact Hrun3.
Qed.

Lemma setitem_raises_after_first_eviction_witness :
  ∃ s0 s s',
    __init__ 1 None None = Some (Returned tt, s0)
    ∧ for_each [(PyStr "hi", PyInt 0); (PyStr "bye", PyInt 1)] assign s0
      = Some (Returned tt, s)
    ∧ assign (PyStr "x", PyInt 2) s = Some (Raised (KeyError PyNone), s').
Proof.
  apply (setitem_raises_after_first_eviction
           (PyStr "hi", PyInt 0) [] (PyStr "bye", PyInt 1)
           (PyStr "x", PyInt 2));
    apply (bool_decide_unpack _); vm_compute; exact I.
Defined.

End lru_eviction.

Section lru_recency.
Import LRU.

(** When every link of the index is in the store, the value map is the
    index with each link replaced by its RESULT. *)
Lemma value_map_lookup s (g : addr → pyobj) :
  (∀ k a, dict s !! k = Some a → RESULT <$> links s !! a = Some (g a)) →
  _get_value_map s = Some (g <$> dict s).
Proof.
  intros Hg. unfold _get_value_map.
  assert (mapM (item_value s) (map_to_list (dict s))
          = Some (prod_map id g <$> map_to_list (dict s))) as ->.
  { apply mapM_Some, Forall2_fmap_r, Forall_Forall2_diag, Forall_forall.
    intros [k a] Hin%elem_of_map_to_list. unfold item_value. cbn.
    specialize (Hg k a Hin). destruct (links s !! a); cbn in *; congruence. }
  cbn. f_equal. rewrite <- map_to_list_fmap. apply list_to_map_to_list.
Qed.

(** C3. In a new cache of capacity 2, for any three distinct keys a, b, c
    and any values: after set(a,v1), set(b,v2) and the hit get(a), which
    returns v1, the keys are a and b; set(c,v3) then evicts b and nothing
    else, the keys are a and c, and the contents are a:v1 and c:v3. *)
Theorem lru_recency (a b c v1 v2 v3 : pyobj) :
  a ≠ b → a ≠ c → b ≠ c →
  ∃ s2 s3 s4,
    __init__ 2 None None = Some (Returned tt, blank 2)
    ∧ (__setitem__ a v1 ;; __setitem__ b v2) (blank 2)
      = Some (Returned tt, s2)
    ∧ __getitem__ a s2 = Some (Returned v1, s3)
    ∧ dom (dict s3) = {[ a; b ]}
    ∧ __setitem__ c v3 s3 = Some (Returned tt, s4)
    ∧ dom (dict s4) = {[ a; c ]}
    ∧ (b ∉ dom (dict s4))
    ∧ _get_value_map s4 = Some {[ a := v1; c := v3 ]}.
Proof.
  intros Hab Hac Hbc.
  (* set(a, v1) *)
  pose proof (fresh_link_absent (links (blank 2))) as Hfr1.
  set (a1 := fresh (dom (links (blank 2)))) in *.
  assert (a1 ≠ 0%nat) as Ha1.
  { intros Heq. rewrite Heq in Hfr1. unfold blank in Hfr1. cbn [links] in Hfr1.
    by rewrite lookup_singleton_eq in Hfr1. }
  eassert (__setitem__ a v1 (blank 2) = Some (Returned tt, _)) as Hset1.
  { unfold blank. enter. cbn [root max_size].
    change (__len__ _ <? 2) with true. cbv iota.
    step_load. step_alloc a1.
    unfold set_NEXT, set_PREV. step_store. step_store.
    tidy. reflexivity. }
  clearbody a1. clear Hfr1.
  (* set(b, v2) *)
  match type of Hset1 with _ = Some (_, ?s) =>
    pose proof (fresh_link_absent (links s)) as Hfr2;
    set (a2 := fresh (dom (links s))) in *
  end.
  assert (a2 ≠ 0%nat) as Ha2.
  { intros Heq. rewrite Heq in Hfr2. cbn in Hfr2.
    by rewrite lookup_insert_eq in Hfr2. }
  assert (a2 ≠ a1) as Ha21.
  { intros Heq. rewrite Heq in Hfr2. cbn in Hfr2.
    rewrite !lookup_insert_ne in Hfr2 by done.
    by rewrite lookup_insert_eq in Hfr2. }
  match type of Hset1 with _ = Some (_, ?s) =>
    eassert (__setitem__ b v2 s = Some (Returned tt, _)) as Hset2
  end.
  { enter. cbn [root max_size].
    match goal with |- context [__len__ ?s <? 2] =>
      replace (__len__ s <? 2) with true
        by (unfold __len__, len; cbn;
            by rewrite map_size_insert_None, map_size_empty) end.
    cbv iota.
    step_load. cbn [PREV]. step_alloc a2.
    unfold set_NEXT, set_PREV. step_store. step_store.
    tidy. reflexivity. }
  clearbody a2. clear Hfr2.
  (* get(a) *)
  match type of Hset2 with _ = Some (_, ?s) =>
    eassert (__getitem__ a s = Some (Returned v1, _)) as Hget
  end.
  { unfold __getitem__.
    erewrite bind_returned.
    2:{ apply try_except_returned. unfold dict_getitem. cbn.
        rewrite lookup_insert_ne by done. rewrite lookup_insert_eq.
        reflexivity. }
    step_pure. cbn [root].
    erewrite bind_returned by (unfold load; look).
    cbn [PREV NEXT RESULT].
    unfold set_NEXT, set_PREV.
    step_store. step_store. step_load. cbn [PREV].
    step_store. step_store. step_store. step_store.
    step_pure. unfold ret. tidy. reflexivity. }
  (* set(c, v3) *)
  match type of Hget with _ = Some (_, ?s) =>
    eassert (__setitem__ c v3 s = Some (Returned tt, _)) as Hset3
  end.
  { enter. cbn [root max_size].
    match goal with |- context [__len__ ?s <? 2] =>
      replace (__len__ s <? 2) with false
        by (unfold __len__, len; cbn;
            by rewrite !map_size_insert_None, map_size_empty
              by (by rewrite ?lookup_insert_ne, ?lookup_empty by done)) end.
    cbv iota zeta.
    unfold set_KEY, set_RESULT.
    step_store. step_store. step_load. cbn [NEXT].
    step_load. step_load. step_store. step_store.
    cbn [KEY].
    erewrite bind_returned.
    2:{ unfold dict_delitem. tidy. rewrite lookup_insert_eq.
        reflexivity. }
    tidy. rewrite delete_insert_eq.
    rewrite delete_id by (by rewrite lookup_insert_ne).
    reflexivity. }
  eexists _, _, _.
  split; [reflexivity|].
  split; [rewrite (bind_returned _ _ _ _ _ Hset1); exact Hset2|].
  split; [exact Hget|].
  split.
  { cbn [dict]. rewrite !dom_insert_L, dom_empty_L, (right_id_L ∅ (∪)).
    apply (comm_L (∪)). }
  split; [exact Hset3|].
  cbn [dict]. rewrite !dom_insert_L, dom_empty_L, (right_id_L ∅ (∪)).
  split; [apply (comm_L (∪))|].
  split.
  { rewrite not_elem_of_union, !not_elem_of_singleton. split; congruence. }
  rewrite (value_map_lookup _ (λ x, if decide (x = 0%nat) then v3 else v1)).
  - f_equal. cbn [dict]. apply map_eq. intros k.
    rewrite lookup_fmap.
    destruct (decide (k = c)) as [->|Hkc].
    { rewrite lookup_insert_eq, lookup_insert_ne, lookup_singleton_eq by done.
      cbn. by rewrite decide_True. }
    rewrite (lookup_insert_ne _ c k) by done.
    destruct (decide (k = a)) as [->|Hka].
    { rewrite !lookup_insert_eq. cbn. by rewrite decide_False. }
    rewrite !lookup_insert_ne by done.
    by rewrite lookup_empty, lookup_singleton_ne.
  - cbn [dict links]. intros k x [[-> <-]|[_ Hx]]%lookup_insert_Some.
    { rewrite decide_True by done.
      repeat (rewrite lookup_insert_ne by done). by rewrite lookup_insert_eq. }
    apply lookup_insert_Some in Hx as [[-> <-]|[_ Hx]]; [|done].
    rewrite decide_False by done.
    repeat (rewrite lookup_insert_ne by done). by rewrite lookup_insert_eq.
Qed.

Lemma lru_recency_witness :
  let a := PyStr "a" in
  let b := PyStr "b" in
  let c := PyStr "c" in
  ∃ s2 s3 s4,
    __init__ 2 None None = Some (Returned tt, blank 2)
    ∧ (__setitem__ a (PyInt 1) ;; __setitem__ b (PyInt 2)) (blank 2)
      = Some (Returned tt, s2)
    ∧ __getitem__ a s2 = Some (Returned (PyInt 1), s3)
    ∧ dom (dict s3) = {[ a; b ]}
    ∧ __setitem__ c (PyInt 3) s3 = Some (Returned tt, s4)
    ∧ dom (dict s4) = {[ a; c ]}
    ∧ (b ∉ dom (dict s4))
    ∧ _get_value_map s4 = Some {[ a := PyInt 1; c := PyInt 3 ]}.
Proof.
  intros a b c.
  apply (lru_recency a b c (PyInt 1) (PyInt 2) (PyInt 3)); done.
Defined.

End lru_recency.

(** ** The bound on the index

    What each method does to the index and the capacity, by a small logic
    of triples; the links play no part in it. *)

Section capacity.
Import LRU.
Context {A B : Type}.
Implicit Types (P Q : t → Prop) (F : gmap pyobj addr → Z → Prop).

Lemma triple_bind P Q (R : A → t → Prop) (R' : B → t → Prop) m k :
  triple P m Q R → (∀ a, triple (R a) (k a) Q R') → triple P (bind m k) Q R'.
Proof.
  intros Hm Hk s o s' HP. unfold bind.
  destruct (m s) as [[[a|e] s1]|] eqn:Hms; [|intros [= <- <-]|done].
  - apply (Hk a), (Hm _ _ _ HP Hms).
  - apply (Hm _ _ _ HP Hms).
Qed.

Lemma triple_weaken P P' Q (R R' : A → t → Prop) m :
  (∀ s, P' s → P s) → (∀ a s, R a s → R' a s) →
  triple P m Q R → triple P' m Q R'.
Proof.
  intros HP HR Hm s o s' HP' Hrun. specialize (Hm s o s' (HP _ HP') Hrun).
  destruct o; auto.
Qed.

Lemma triple_ret P Q (a : A) : triple P (ret a) Q (λ _, P).
Proof. by intros s o s' HP [= <- <-]. Qed.

Lemma triple_raise P e : triple P (raise e : M t A) P (λ _ _, False).
Proof. by intros s o s' HP [= <- <-]. Qed.

Lemma triple_gets P Q (f : t → A) : triple P (gets f) Q (λ a s, P s ∧ a = f s).
Proof. by intros s o s' HP [= <- <-]. Qed.

Lemma triple_try P Q (R : A → t → Prop) body h :
  triple P body Q R → (∀ e, triple Q (h e) Q R) →
  triple P (try_except_KeyError body h) Q R.
Proof.
  intros Hb Hh s o s' HP. unfold try_except_KeyError.
  destruct (body s) as [[[a|e] s1]|] eqn:Hbs; [| |done].
  - intros [= <- <-]. apply (Hb _ _ _ HP Hbs).
  - pose proof (Hb _ _ _ HP Hbs) as HQ. cbn in HQ. destruct e.
    + apply (Hh _ _ _ _ HQ).
    + by intros [= <- <-].
    + by intros [= <- <-].
    + by intros [= <- <-].
Qed.
End capacity.

Section capacity_lru.
Import LRU.
Implicit Types (P Q : t → Prop) (F : gmap pyobj addr → Z → Prop).

(** Reads and writes of links leave the index and the capacity alone. *)
Lemma triple_load F Q a :
  triple (on_index F) (load a) Q (λ _, on_index F).
Proof.
  intros s o s' HP. unfold load.
  destruct (links s !! a); [|done]. by intros [= <- <-].
Qed.

Lemma triple_getfield {A} F Q (f : link → A) a :
  triple (on_index F) (getfield f a) Q (λ _, on_index F).
Proof.
  apply (triple_bind _ _ (λ _, on_index F)); [apply triple_load|].
  intros l. apply triple_ret.
Qed.

Lemma triple_store F Q a f :
  triple (on_index F) (store a f) Q (λ _, on_index F).
Proof.
  intros s o s' HP. unfold store.
  destruct (links s !! a); [|done]. by intros [= <- <-].
Qed.

Lemma triple_alloc F Q l :
  triple (on_index F) (alloc l) Q (λ _, on_index F).
Proof. by intros s o s' HP [= <- <-]. Qed.

Lemma triple_count F Q (g : t → t) :
  (∀ s, dict (g s) = dict s ∧ max_size (g s) = max_size s) →
  triple (on_index F) (modify g) Q (λ _, on_index F).
Proof.
  intros Hg s o s' HP [= <- <-]. unfold on_index in *.
  by destruct (Hg s) as [-> ->].
Qed.

Lemma within_capacity_room C s : within_capacity C s ↔ on_index (room C 0) s.
Proof. unfold within_capacity, on_index, room, __len__, len. lia. Qed.

Lemma triple_dict_getitem C key :
  triple (on_index (room C 0)) (dict_getitem key)
    (on_index (room C 0)) (λ _, on_index (room C 0)).
Proof.
  intros s o s' HP. unfold dict_getitem.
  destruct (dict s !! key); by intros [= <- <-].
Qed.

Lemma triple_dict_delitem C key :
  triple (on_index (room C 0)) (dict_delitem key)
    (on_index (room C 0)) (λ _, on_index (room C 1)).
Proof.
  intros s o s' [Hmax Hsize]. unfold dict_delitem.
  destruct (dict s !! key) as [a|] eqn:Hkey; intros [= <- <-]; [|done].
  split; [done|]. cbn [set_dict dict].
  pose proof (map_size_delete key (dict s)) as Hdel. rewrite Hkey in Hdel.
  assert (size (dict s) ≠ 0%nat).
  { intros Hz. apply map_size_empty_inv in Hz. by rewrite Hz in Hkey. }
  lia.
Qed.

Lemma triple_dict_setitem C Q key link :
  triple (on_index (room C 1)) (dict_setitem key link)
    Q (λ _, on_index (room C 0)).
Proof.
  intros s o s' [Hmax Hsize] [= <- <-]. split; [done|].
  cbn [set_dict dict].
  pose proof (map_size_insert key link (dict s)) as Hins.
  destruct (dict s !! key); unfold id in Hins; lia.
Qed.

Ltac chain F :=
  eapply (triple_bind _ _ (λ _, on_index F));
  [first [apply triple_getfield | apply triple_store | apply triple_alloc]
  |intros ?].

Lemma setitem_append C key value root :
  triple (on_index (room C 1))
    (last <- getfield PREV root ;;
     link <- alloc (Link last root key value) ;;
     set_NEXT last link ;;
     set_PREV root link ;;
     dict_setitem key link)
    (on_index (room C 0)) (λ _, on_index (room C 0)).
Proof. do 4 chain (room C 1). apply triple_dict_setitem. Qed.

Lemma setitem_evicting C key value oldroot :
  triple (on_index (room C 0))
    (set_KEY oldroot key ;;
     set_RESULT oldroot value ;;
     root <- getfield NEXT oldroot ;;
     oldkey <- getfield KEY root ;;
     oldresult <- getfield RESULT root ;;
     set_KEY root PyNone ;;
     set_RESULT root PyNone ;;
     dict_delitem oldkey ;;
     dict_setitem key oldroot)
    (on_index (room C 0)) (λ _, on_index (room C 0)).
Proof.
  do 7 chain (room C 0).
  eapply triple_bind; [apply triple_dict_delitem|].
  intros ?. apply triple_dict_setitem.
Qed.

Lemma setitem_within_capacity C key value :
  triple (on_index (room C 0)) (__setitem__ key value)
    (on_index (room C 0)) (λ _, on_index (room C 0)).
Proof.
  intros s o s' HP Hrun. unfold __setitem__ in Hrun.
  rewrite (bind_returned _ _ s (root s) s) in Hrun by reflexivity.
  rewrite (bind_returned _ _ s (__len__ s) s) in Hrun by reflexivity.
  rewrite (bind_returned _ _ s (max_size s) s) in Hrun by reflexivity.
  destruct (Z.ltb_spec (__len__ s) (max_size s)) as [Hlt|Hge].
  - apply (setitem_append C key value (root s) s o s'); [|exact Hrun].
    destruct HP as [Hmax _]. split; [done|].
    unfold __len__, len in Hlt. lia.
  - apply (setitem_evicting C key value (root s) s o s' HP Hrun).
Qed.

Lemma getitem_within_capacity C key :
  triple (on_index (room C 0)) (__getitem__ key)
    (on_index (room C 0)) (λ _, on_index (room C 0)).
Proof.
  unfold __getitem__.
  eapply (triple_bind _ _ (λ _, on_index (room C 0))).
  { apply triple_try; [apply triple_dict_getitem|]. intros e.
    eapply (triple_bind _ _ (λ _, on_index (room C 0))).
    - by apply triple_count.
    - intros ?. eapply triple_weaken; [done| |apply triple_raise]. done. }
  intros link.
  eapply (triple_bind _ _ (λ _, on_index (room C 0))).
  { eapply triple_weaken; [done| |apply triple_gets]. by intros ? ? [? _]. }
  intros root.
  eapply (triple_bind _ _ (λ _, on_index (room C 0))); [apply triple_load|].
  intros l. do 7 chain (room C 0).
  eapply (triple_bind _ _ (λ _, on_index (room C 0))).
  { by apply triple_count. }
  intros ?. apply triple_ret.
Qed.

Lemma get_within_capacity C key default :
  triple (on_index (room C 0)) (get key default)
    (on_index (room C 0)) (λ _, on_index (room C 0)).
Proof.
  apply triple_try; [apply getitem_within_capacity|]. intros ?.
  eapply (triple_bind _ _ (λ _, on_index (room C 0))).
  - by apply triple_count.
  - intros ?. apply triple_ret.
Qed.

Lemma delitem_within_capacity C key :
  triple (on_index (room C 0)) (__delitem__ key)
    (on_index (room C 0)) (λ _, on_index (room C 0)).
Proof.
  eapply triple_weaken; [done| |apply triple_dict_delitem].
  intros _ s [Hmax Hsize]. split; [done|]. lia.
Qed.

Lemma for_each_within_capacity {A} C (xs : list A) body :
  (∀ x, triple (on_index (room C 0)) (body x)
          (on_index (room C 0)) (λ _, on_index (room C 0))) →
  triple (on_index (room C 0)) (for_each xs body)
    (on_index (room C 0)) (λ _, on_index (room C 0)).
Proof.
  intros Hbody. induction xs as [|x xs IH]; cbn [for_each].
  - apply triple_ret.
  - eapply triple_bind; [apply Hbody|]. intros ?. exact IH.
Qed.

Lemma update_pairs_within_capacity C l : ∀ seen,
  triple (on_index (room C 0)) (update_pairs l seen)
    (on_index (room C 0)) (λ _, on_index (room C 0)).
Proof.
  induction l as [|[k v] l IH]; intros seen; cbn [update_pairs].
  - apply triple_ret.
  - eapply (triple_bind _ _ (λ _, on_index (room C 0))).
    { eapply triple_weaken; [done| |apply triple_gets]. by intros ? ? [? _]. }
    intros present. destruct (_ && _).
    + eapply triple_bind; [apply delitem_within_capacity|]. intros ?.
      eapply triple_bind; [apply setitem_within_capacity|]. intros ?.
      apply IH.
    + eapply triple_bind; [apply setitem_within_capacity|]. intros ?.
      apply IH.
Qed.

Lemma update_within_capacity C E (kw : gmap string pyobj) :
  triple (on_index (room C 0)) (update E kw)
    (on_index (room C 0)) (λ _, on_index (room C 0)).
Proof.
  destruct E as [|d|l]; cbn [update].
  - apply triple_ret.
  - eapply triple_bind.
    + apply for_each_within_capacity. intros x. apply setitem_within_capacity.
    + intros ?. apply for_each_within_capacity. intros x.
      apply setitem_within_capacity.
  - eapply triple_bind; [apply update_pairs_within_capacity|].
    intros ?. apply for_each_within_capacity. intros x.
    apply setitem_within_capacity.
Qed.

Lemma run_within_capacity C c :
  triple (on_index (room C 0)) (run c)
    (on_index (room C 0)) (λ _, on_index (room C 0)).
Proof.
  destruct c; cbn [run].
  - apply getitem_within_capacity.
  - apply get_within_capacity.
  - eapply triple_bind; [apply setitem_within_capacity|].
    intros ?. apply triple_ret.
  - eapply triple_bind; [apply delitem_within_capacity|].
    intros ?. apply triple_ret.
  - eapply triple_bind; [apply update_within_capacity|].
    intros ?. apply triple_ret.
Qed.

(** The constructor leaves the index within capacity. *)
Lemma init_within_capacity C on_miss values o s0 :
  0 ≤ C → __init__ C on_miss values = Some (o, s0) →
  on_index (room C 0) s0.
Proof.
  intros HC. unfold __init__.
  assert (on_index (room C 0) (blank C)) as Hblank.
  { split; [done|]. cbn. rewrite map_size_empty. lia. }
  destruct values as [E|]; [destruct (truthy _)|].
  - intros Hrun. pose proof (update_within_capacity C E ∅ _ _ _ Hblank Hrun).
    by destruct o.
  - by intros [= <- <-].
  - by intros [= <- <-].
Qed.

(** C2, amended.  For a cache built with a capacity [C] that is not
    negative, after any sequence of get, get with a default, set, delete
    and update calls, returning or raising, the capacity is still [C] and
    the index holds at most [C] keys. *)
Theorem index_within_capacity C on_miss values o s0 s :
  0 ≤ C →
  __init__ C on_miss values = Some (o, s0) →
  reachable s0 s →
  __len__ s ≤ C ∧ max_size s = C.
Proof.
  intros HC Hinit Hreach.
  cut (within_capacity C s).
  { intros [? ?]. done. }
  apply within_capacity_room.
  induction Hreach as [|s c o' s' _ IH Hrun].
  - by apply (init_within_capacity C on_miss values o).
  - pose proof (run_within_capacity _ c s o' s' IH Hrun) as H.
    by destruct o'.
Qed.

Lemma index_within_capacity_witness :
  let a := PyStr "a" in
  let s1 := mk 0 0 0 2 0%nat
              {[ 0%nat := Link 1%nat 1%nat PyNone PyNone;
                 1%nat := Link 0%nat 0%nat a (PyInt 1) ]}
              {[ a := 1%nat ]} in
  let s2 := mk 0 0 0 2 0%nat
              {[ 0%nat := Link 2%nat 1%nat PyNone PyNone;
                 1%nat := Link 0%nat 2%nat a (PyInt 1);
                 2%nat := Link 1%nat 0%nat a (PyInt 2) ]}
              {[ a := 2%nat ]} in
  __len__ s2 ≤ 2 ∧ max_size s2 = 2.
Proof.
  intros a s1 s2.
  apply (index_within_capacity 2 None None (Returned tt) (blank 2) s2).
  - by vm_compute.
  - reflexivity.
  - apply (reachable_call _ s1 (CallSet a (PyInt 2)) (Returned PyNone)).
    + apply (reachable_call _ (blank 2) (CallSet a (PyInt 1))
               (Returned PyNone)).
      * apply reachable_start.
      * vm_compute. reflexivity.
    + vm_compute. reflexivity.
Defined.

End capacity_lru.

(** ** BasicCache: what every sequence of lookups keeps *)

Section basic_cache_invariant.
Import BasicCache.

Lemma basic_inv_init size f : basic_inv (__init__ size f).
Proof.
  unfold basic_inv, __init__. cbn. split; [constructor|]. split; [lia|].
  split.
  - intros k. rewrite lookup_empty. split; [by intros ?%elem_of_nil|].
    by intros [? ?].
  - intros k v. by rewrite lookup_empty.
Qed.

(** A lookup of an absent key for which [on_miss] returns: the value is
    stored and queued, and the oldest key leaves when the queue has grown
    past the size. *)
Lemma missing_step key v s :
  basic_inv s → dict s !! key = None → on_miss s key = inr v →
  ∃ s', __getitem__ key s = Some (Returned v, s')
        ∧ basic_inv s'
        ∧ size s' = size s ∧ on_miss s' = on_miss s
        ∧ _queue s' = drop (length (_queue s ++ [key]) - Z.to_nat (size s))
                        (_queue s ++ [key])
        ∧ dict s' !! key
          = if decide (1 ≤ size s) then Some v else None.
Proof.
  destruct s as [d sz f q]. cbn [dict size on_miss _queue].
  intros (Hnodup & Hlen & Hmem & Hval) Habsent Hf. cbn in Hnodup, Hlen, Hmem, Hval.
  assert (key ∉ q) as Hkq.
  { intros Hin. apply Hmem in Hin as [? ?]. congruence. }
  unfold __getitem__. cbn [dict]. rewrite Habsent.
  unfold __missing__, bind, call_on_miss, dict_setitem, queue_append, gets,
    modify, queue_popleft, dict_delitem, ret, set_queue, set_dict.
  cbv beta iota zeta delta [dict size on_miss _queue]. rewrite Hf.
  cbv beta iota zeta delta [dict size on_miss _queue].
  rewrite length_app. cbn [length].
  destruct (Z.gtb_spec (Z.of_nat (length q + 1)) sz) as [Hgt|Hle].
  - (* the queue is too long: the oldest key leaves *)
    assert (length q = Z.to_nat sz) as Hfull by lia.
    replace (length q + 1 - Z.to_nat sz)%nat with 1%nat by lia.
    destruct (q ++ [key]) as [|old rest] eqn:Hq.
    { by destruct q. }
    assert (NoDup (old :: rest)) as Hnd.
    { rewrite <- Hq. apply NoDup_app. split; [done|]. split.
      - intros x Hx ->%list_elem_of_singleton. done.
      - apply NoDup_singleton. }
    apply NoDup_cons in Hnd as [Hold Hrest].
    assert (∀ k, k ∈ old :: rest ↔ k ∈ q ∨ k = key) as Hq'.
    { intros k. rewrite <- Hq, elem_of_app, list_elem_of_singleton. done. }
    assert (is_Some (<[key:=v]> d !! old)) as [w Hw].
    { destruct (decide (old = key)) as [->|Hne].
      - rewrite lookup_insert_eq. eauto.
      - rewrite lookup_insert_ne by done. apply Hmem.
        destruct (Hq' old) as [[?|?] _]; [left| |]; done. }
    cbv beta iota zeta delta [dict size on_miss _queue]. rewrite Hw.
    eexists. split; [reflexivity|].
    cbv beta iota zeta delta [dict size on_miss _queue basic_inv].
    cbn [drop].
    split; [|split; [done|split; [done|split; [done|]]]].
    + split; [done|]. split.
      { assert (length (old :: rest) = length q + 1)%nat as Hl
          by (by rewrite <- Hq, length_app).
        cbn in Hl. lia. }
      split.
      * intros k. rewrite lookup_delete_is_Some, lookup_insert_is_Some'.
        rewrite <- Hmem. specialize (Hq' k). rewrite elem_of_cons in Hq'.
        split.
        -- intros Hk. split; [by intros ->|].
           destruct (proj1 Hq' (or_intror Hk)) as [? | ->]; [by right|by left].
        -- intros [Hne Hk].
           assert (k ∈ q ∨ k = key) as Hk' by (destruct Hk; auto).
           destruct (proj2 Hq' Hk') as [-> | ?]; done.
      * intros k u [Hne Hk]%lookup_delete_Some.
        apply lookup_insert_Some in Hk as [[<- <-]|[_ Hk]]; [done|].
        by apply Hval.
    + case_decide as Hsz.
      * rewrite lookup_delete_ne, lookup_insert_eq; [done|].
        intros Heq. rewrite Heq in Hq.
        destruct q as [|x q']; [cbn in Hfull; lia|].
        cbn in Hq. injection Hq as Hx _. apply Hkq. rewrite Hx. by left.
      * assert (q = []) as Hnil by (destruct q; [done|cbn in Hfull; lia]).
        rewrite Hnil in Hq. cbn in Hq. injection Hq as Hx _.
        by rewrite Hx, lookup_delete_eq.
  - (* there is room *)
    replace (length q + 1 - Z.to_nat sz)%nat with 0%nat by lia.
    eexists. split; [reflexivity|].
    cbv beta iota zeta delta [dict size on_miss _queue basic_inv].
    cbn [drop].
    split; [|split; [done|split; [done|split; [done|]]]].
    + split.
      { apply NoDup_app. split; [done|]. split.
        - intros x Hx ->%list_elem_of_singleton. done.
        - apply NoDup_singleton. }
      split; [rewrite length_app; cbn; lia|].
      split.
      * intros k. rewrite elem_of_app, list_elem_of_singleton,
          lookup_insert_is_Some', Hmem. split; intros [?|?]; auto.
      * intros k u [[<- <-]|[_ Hk]]%lookup_insert_Some; [done|].
        by apply Hval.
    + rewrite lookup_insert_eq. rewrite decide_True by lia. done.
Qed.

(** Any lookup keeps the invariant, the size and the callback. *)
Lemma lookup_step key s o s' :
  basic_inv s → __getitem__ key s = Some (o, s') →
  basic_inv s' ∧ size s' = size s ∧ on_miss s' = on_miss s.
Proof.
  intros Hinv. destruct (dict s !! key) as [v|] eqn:Hkey.
  - rewrite (getitem_hit _ _ _ Hkey). by intros [= <- <-].
  - destruct (on_miss s key) as [e|v] eqn:Hf.
    + rewrite (getitem_miss _ _ Hkey).
      unfold __missing__, bind, call_on_miss. rewrite Hf. by intros [= <- <-].
    + destruct (missing_step key v s Hinv Hkey Hf) as (s1 & -> & ? & ? & ? & _).
      by intros [= <- <-].
Qed.

Lemma looked_up_inv sz f s :
  looked_up (__init__ sz f) s → basic_inv s ∧ size s = sz ∧ on_miss s = f.
Proof.
  induction 1 as [|s key o s' _ (Hinv & <- & <-) Hrun].
  - split; [apply basic_inv_init|done].
  - apply (lookup_step key s o s' Hinv Hrun).
Qed.

(** The dictionary has as many keys as the queue. *)
Lemma basic_inv_size s :
  basic_inv s →
  dom (dict s) = list_to_set (_queue s)
  ∧ base.size (dict s) = length (_queue s).
Proof.
  intros (Hnodup & _ & Hmem & _).
  assert (dom (dict s) = list_to_set (_queue s)) as Hdom.
  { apply set_eq. intros k.
    by rewrite elem_of_dom, elem_of_list_to_set, Hmem. }
  split; [done|].
  by rewrite <- size_dom, Hdom, size_list_to_set.
Qed.

(** After any lookups in a new cache, the queue lists the keys of the
    dictionary, each once, and there are no more of them than the size
    (none when the size is negative). *)
Theorem basic_cache_bounded sz f s :
  looked_up (__init__ sz f) s →
  NoDup (_queue s)
  ∧ dom (dict s) = list_to_set (_queue s)
  ∧ len (dict s) = Z.of_nat (length (_queue s))
  ∧ len (dict s) ≤ Z.max 0 sz.
Proof.
  intros (Hinv & Hsz & _)%looked_up_inv.
  destruct (basic_inv_size s Hinv) as [Hdom Hsize].
  destruct Hinv as (Hnodup & Hlen & _).
  unfold len. rewrite Hsize. repeat split; [done..|]. lia.
Qed.

Lemma basic_cache_bounded_witness :
  let s := mk {[ PyStr "b" := PyStr "B" ]} 1 upper [PyStr "b"] in
  NoDup (_queue s)
  ∧ dom (dict s) = list_to_set (_queue s)
  ∧ len (dict s) = Z.of_nat (length (_queue s))
  ∧ len (dict s) ≤ Z.max 0 1.
Proof.
  intros s. apply (basic_cache_bounded 1 upper s).
  apply (looked_up_next _ (mk {[ PyStr "a" := PyStr "A" ]} 1 upper [PyStr "a"])
           (PyStr "b") (Returned (PyStr "B"))).
  - apply (looked_up_next _ (__init__ 1 upper) (PyStr "a")
             (Returned (PyStr "A"))).
    + apply looked_up_start.
    + vm_compute. reflexivity.
  - vm_compute. reflexivity.
Defined.

(** In every state reached by lookups, a lookup does what [on_miss] does
    for the key: it returns the value [on_miss] returns, or raises the
    exception [on_miss] raises and leaves the cache as it was.  The
    bookkeeping raises nothing of its own. *)
Theorem basic_cache_lookup_outcome sz f s key :
  looked_up (__init__ sz f) s →
  match f key with
  | inr v => ∃ s', __getitem__ key s = Some (Returned v, s')
  | inl e => __getitem__ key s = Some (Raised e, s)
  end.
Proof.
  intros (Hinv & Hsz & Hf)%looked_up_inv.
  destruct (dict s !! key) as [v|] eqn:Hkey.
  - rewrite (getitem_hit _ _ _ Hkey).
    destruct Hinv as (_ & _ & _ & Hval).
    rewrite <- Hf, (Hval _ _ Hkey). eauto.
  - destruct (f key) as [e|v] eqn:Hfk.
    + rewrite (getitem_miss _ _ Hkey).
      unfold __missing__, bind, call_on_miss. by rewrite Hf, Hfk.
    + rewrite <- Hf in Hfk.
      destruct (missing_step key v s Hinv Hkey Hfk) as (s1 & -> & _). eauto.
Qed.

Lemma basic_cache_lookup_outcome_witness :
  ∃ s', __getitem__ (PyStr "b")
          (mk {[ PyStr "a" := PyStr "A" ]} 1 upper [PyStr "a"])
        = Some (Returned (PyStr "B"), s').
Proof.
  apply (basic_cache_lookup_outcome 1 upper
           (mk {[ PyStr "a" := PyStr "A" ]} 1 upper [PyStr "a"]) (PyStr "b")).
  apply (looked_up_next _ (__init__ 1 upper) (PyStr "a")
           (Returned (PyStr "A"))).
  - apply looked_up_start.
  - vm_compute. reflexivity.
Defined.

(** With room for at least one key, a key that has just been looked up is
    in the cache: looking it up again returns the same value and changes
    nothing. *)
Theorem basic_cache_memo sz f s key v s' :
  1 ≤ sz →
  looked_up (__init__ sz f) s →
  __getitem__ key s = Some (Returned v, s') →
  __getitem__ key s' = Some (Returned v, s').
Proof.
  intros Hsz (Hinv & Hsize & Hf)%looked_up_inv Hrun.
  destruct (dict s !! key) as [w|] eqn:Hkey.
  - rewrite (getitem_hit _ _ _ Hkey) in Hrun. injection Hrun as <- <-.
    by apply getitem_hit.
  - destruct (on_miss s key) as [e|w] eqn:Hfk.
    + rewrite (getitem_miss _ _ Hkey) in Hrun.
      unfold __missing__, bind, call_on_miss in Hrun. by rewrite Hfk in Hrun.
    + destruct (missing_step key w s Hinv Hkey Hfk)
        as (s1 & Hrun1 & _ & _ & _ & _ & Hin).
      rewrite Hrun1 in Hrun. injection Hrun as <- <-.
      apply getitem_hit. rewrite Hin. rewrite decide_True by lia. done.
Qed.

Lemma basic_cache_memo_witness :
  let s' := mk {[ PyStr "a" := PyStr "A" ]} 1 upper [PyStr "a"] in
  __getitem__ (PyStr "a") s' = Some (Returned (PyStr "A"), s').
Proof.
  intros s'.
  apply (basic_cache_memo 1 upper (__init__ 1 upper) (PyStr "a")
           (PyStr "A") s').
  - lia.
  - apply looked_up_start.
  - vm_compute. reflexivity.
Defined.

(** Lookups of keys that are new to the cache and differ from one
    another: all miss, and the queue is the old queue followed by the keys,
    cut at the front to the size. *)
Lemma fifo_run keys vs : ∀ s,
  basic_inv s → NoDup keys →
  (∀ k, k ∈ keys → k ∉ _queue s) →
  Forall2 (λ k v, on_miss s k = inr v) keys vs →
  ∃ s', in_turn (__getitem__ <$> keys) s = Some (Returned vs, s')
        ∧ basic_inv s'
        ∧ size s' = size s ∧ on_miss s' = on_miss s
        ∧ _queue s' = drop (length (_queue s ++ keys) - Z.to_nat (size s))
                        (_queue s ++ keys).
Proof.
  revert vs. induction keys as [|k keys IH]; intros vs s Hinv Hnodup Hnew Hf.
  - apply Forall2_nil_inv_l in Hf as ->. exists s. cbn.
    split; [done|]. split; [done|]. split; [done|]. split; [done|].
    rewrite app_nil_r. destruct Hinv as (_ & Hlen & _).
    replace (length (_queue s) - Z.to_nat (size s))%nat with 0%nat by lia.
    done.
  - apply Forall2_cons_inv_l in Hf as (v & vs' & Hk & Hf & ->).
    apply NoDup_cons in Hnodup as [Hkk Hnodup].
    assert (dict s !! k = None) as Habsent.
    { destruct Hinv as (_ & _ & Hmem & _).
      apply eq_None_not_Some. rewrite <- Hmem. apply Hnew. by left. }
    destruct (missing_step k v s Hinv Habsent Hk)
      as (s1 & Hrun1 & Hinv1 & Hsz1 & Hf1 & Hq1 & _).
    destruct (IH vs' s1 Hinv1 Hnodup) as (s' & Hrun & Hinv' & Hsz' & Hf' & Hq').
    { intros k' Hk'. rewrite Hq1. intros Hin%subseteq_drop.
      apply elem_of_app in Hin as [Hin|Hin%list_elem_of_singleton].
      - apply (Hnew k'); [by right|done].
      - by subst k'. }
    { by rewrite Hf1. }
    exists s'. cbn [fmap list_fmap in_turn]. unfold bind at 1.
    rewrite Hrun1. unfold bind at 1.
    fold (@fmap list _ _ _ __getitem__ keys). rewrite Hrun. cbn [ret].
    split; [done|]. split; [done|]. split; [congruence|]. split; [congruence|].
    rewrite Hq', Hq1, Hsz1.
    destruct Hinv as (_ & Hlen & _).
    rewrite <- drop_app_le by (rewrite length_app; cbn; lia).
    rewrite <- (assoc_L (++)). cbn [app].
    rewrite drop_drop. f_equal.
    rewrite !length_app, length_drop, !length_app. cbn [length]. lia.
Qed.

(** Looking up keys that all differ in a new cache returns what [on_miss]
    returns for each, and leaves in the cache the keys looked up last, as
    many as the size allows, in the order of their lookups. *)
Theorem basic_cache_keeps_latest sz f keys vs :
  NoDup keys →
  Forall2 (λ k v, f k = inr v) keys vs →
  ∃ s', in_turn (__getitem__ <$> keys) (__init__ sz f)
          = Some (Returned vs, s')
        ∧ _queue s' = drop (length keys - Z.to_nat sz) keys
        ∧ dom (dict s') = list_to_set (drop (length keys - Z.to_nat sz) keys)
        ∧ len (dict s') = Z.min (Z.of_nat (length keys)) (Z.max 0 sz)
        ∧ (∀ k v, dict s' !! k = Some v → f k = inr v).
Proof.
  intros Hnodup Hf.
  destruct (fifo_run keys vs (__init__ sz f) (basic_inv_init sz f) Hnodup)
    as (s' & Hrun & Hinv & Hsz & Hf' & Hq); [|done|].
  { intros k _. cbn. apply not_elem_of_nil. }
  cbn in Hq, Hsz, Hf'.
  exists s'. split; [done|]. split; [done|].
  destruct (basic_inv_size s' Hinv) as [Hdom Hsize].
  split; [by rewrite Hdom, Hq|]. split.
  - unfold len. rewrite Hsize, Hq, length_drop. lia.
  - destruct Hinv as (_ & _ & _ & Hval). intros k v Hk.
    rewrite <- Hf'. by apply Hval.
Qed.

Lemma basic_cache_keeps_latest_witness :
  ∃ s', in_turn (__getitem__ <$> letters) (__init__ 10 upper)
          = Some (Returned ((λ k, match upper k with
                                  | inr v => v
                                  | inl _ => PyNone
                                  end) <$> letters), s')
        ∧ _queue s' = drop (length letters - Z.to_nat 10) letters
        ∧ dom (dict s')
          = list_to_set (drop (length letters - Z.to_nat 10) letters)
        ∧ len (dict s') = Z.min (Z.of_nat (length letters)) (Z.max 0 10)
        ∧ (∀ k v, dict s' !! k = Some v → upper k = inr v).
Proof.
  apply (basic_cache_keeps_latest 10 upper letters).
  - apply (bool_decide_unpack _). vm_compute. exact I.
  - vm_compute. repeat constructor.
Defined.

End basic_cache_invariant.

(** ** LRU: lookups leave the index alone *)

Section lru_lookup_frame.
Import LRU.

Lemma keeps_index_bind {A B} (m : M t A) (k : A → M t B) :
  keeps_index m → (∀ a, keeps_index (k a)) → keeps_index (bind m k).
Proof.
  intros Hm Hk s o s'. unfold bind.
  destruct (m s) as [[[a|e] s1]|] eqn:Hms; [| |done].
  - intros Hrun. destruct (Hm _ _ _ Hms) as (Hd & Hc & Hr).
    destruct (Hk a _ _ _ Hrun) as (Hd' & Hc' & Hr').
    by rewrite Hd', Hc', Hr'.
  - intros [= <- <-]. apply (Hm _ _ _ Hms).
Qed.

Lemma keeps_index_try {A} (body : M t A) h :
  keeps_index body → (∀ e, keeps_index (h e)) →
  keeps_index (try_except_KeyError body h).
Proof.
  intros Hb Hh s o s'. unfold try_except_KeyError.
  destruct (body s) as [[[a|e] s1]|] eqn:Hbs; [| |done].
  - intros [= <- <-]. apply (Hb _ _ _ Hbs).
  - destruct (Hb _ _ _ Hbs) as (Hd & Hm & Hr). destruct e.
    + intros Hrun. destruct (Hh _ _ _ _ Hrun) as (Hd' & Hm' & Hr').
      by rewrite Hd', Hm', Hr'.
    + by intros [= <- <-].
    + by intros [= <- <-].
    + by intros [= <- <-].
Qed.

Lemma keeps_index_ret {A} (a : A) : keeps_index (ret a : M t A).
Proof. by intros s o s' [= <- <-]. Qed.

Lemma keeps_index_raise {A} e : keeps_index (raise e : M t A).
Proof. by intros s o s' [= <- <-]. Qed.

Lemma keeps_index_gets {A} (f : t → A) : keeps_index (gets f).
Proof. by intros s o s' [= <- <-]. Qed.

Lemma keeps_index_load a : keeps_index (load a).
Proof.
  intros s o s'. unfold load. destruct (links s !! a); [|done].
  by intros [= <- <-].
Qed.

Lemma keeps_index_store a f : keeps_index (store a f).
Proof.
  intros s o s'. unfold store. destruct (links s !! a); [|done].
  by intros [= <- <-].
Qed.

Lemma keeps_index_getfield {A} (f : link → A) a : keeps_index (getfield f a).
Proof.
  apply keeps_index_bind; [apply keeps_index_load|].
  intros l. apply keeps_index_ret.
Qed.

Lemma keeps_index_dict_getitem key : keeps_index (dict_getitem key).
Proof.
  intros s o s'. unfold dict_getitem.
  destruct (dict s !! key); by intros [= <- <-].
Qed.

Lemma keeps_index_count (g : t → t) :
  (∀ s, dict (g s) = dict s ∧ max_size (g s) = max_size s
        ∧ root (g s) = root s) →
  keeps_index (modify g).
Proof. intros Hg s o s' [= <- <-]. apply Hg. Qed.

Lemma keeps_index_getitem key : keeps_index (__getitem__ key).
Proof.
  unfold __getitem__.
  apply keeps_index_bind.
  { apply keeps_index_try; [apply keeps_index_dict_getitem|]. intros e.
    apply keeps_index_bind; [by apply keeps_index_count|].
    intros ?. apply keeps_index_raise. }
  intros link. apply keeps_index_bind; [apply keeps_index_gets|].
  intros root. apply keeps_index_bind; [apply keeps_index_load|].
  intros l.
  do 2 (apply keeps_index_bind; [apply keeps_index_store|intros ?]).
  apply keeps_index_bind; [apply keeps_index_getfield|intros last].
  do 4 (apply keeps_index_bind; [apply keeps_index_store|intros ?]).
  apply keeps_index_bind; [by apply keeps_index_count|intros ?].
  apply keeps_index_ret.
Qed.

Lemma keeps_index_get key default : keeps_index (get key default).
Proof.
  apply keeps_index_try; [apply keeps_index_getitem|]. intros e.
  apply keeps_index_bind; [by apply keeps_index_count|intros ?].
  apply keeps_index_ret.
Qed.

(** X5. A lookup, [self[key]] or [self.get(key, default)], hit or miss,
    neither adds nor removes a key, and changes neither the link a key is
    registered to, nor the capacity, nor [self.root]: it only relinks the
    queue and counts. *)
Theorem lookup_keeps_index key default s o s' :
  __getitem__ key s = Some (o, s') ∨ get key default s = Some (o, s') →
  dict s' = dict s ∧ max_size s' = max_size s ∧ root s' = root s.
Proof.
  intros [Hrun|Hrun].
  - exact (keeps_index_getitem key s o s' Hrun).
  - exact (keeps_index_get key default s o s' Hrun).
Qed.

Lemma lookup_keeps_index_witness :
  let s := mk 0 0 0 2 0%nat
             {[ 0%nat := Link 1%nat 1%nat PyNone PyNone;
                1%nat := Link 0%nat 0%nat (PyStr "a") (PyInt 1) ]}
             {[ PyStr "a" := 1%nat ]} in
  let s' := mk 0 1 1 2 0%nat
             {[ 0%nat := Link 1%nat 1%nat PyNone PyNone;
                1%nat := Link 0%nat 0%nat (PyStr "a") (PyInt 1) ]}
             {[ PyStr "a" := 1%nat ]} in
  dict s' = dict s ∧ max_size s' = max_size s ∧ root s' = root s.
Proof.
  intros s s'.
  apply (lookup_keeps_index (PyStr "b") (PyInt 7) s (Returned (PyInt 7)) s').
  right. vm_compute. reflexivity.
Defined.

End lru_lookup_frame.

(** ** LRU: the two branches of an assignment *)

Section lru_assignment.
Import LRU.

(** Below capacity: a new link [a] is put between the last link and the
    root and registered for the key.  Every other link keeps its key and
    its result. *)
Lemma setitem_appends key value s r pl :
  __len__ s < max_size s →
  links s !! root s = Some r →
  links s !! PREV r = Some pl →
  ∃ a s',
    links s !! a = None
    ∧ __setitem__ key value s = Some (Returned tt, s')
    ∧ dict s' = <[key:=a]> (dict s)
    ∧ root s' = root s ∧ max_size s' = max_size s
    ∧ (hit_count s', miss_count s', soft_miss_count s')
      = (hit_count s, miss_count s, soft_miss_count s)
    ∧ links s' !! a = Some (Link (PREV r) (root s) key value)
    ∧ (∃ r', links s' !! root s = Some r'
             ∧ PREV r' = a ∧ KEY r' = KEY r ∧ RESULT r' = RESULT r
             ∧ NEXT r' = if decide (PREV r = root s) then a else NEXT r)
    ∧ (∀ b l, b ≠ root s → links s !! b = Some l →
         ∃ l', links s' !! b = Some l'
               ∧ KEY l' = KEY l ∧ RESULT l' = RESULT l ∧ PREV l' = PREV l
               ∧ NEXT l' = if decide (b = PREV r) then a else NEXT l).
Proof.
  destruct s as [hc mc sc C rt lk d]. cbn [root links max_size].
  intros Hlt Hr Hpl.
  pose proof (fresh_link_absent lk) as Ha.
  set (a := fresh (dom lk)) in *.
  assert (rt ≠ a) as Hrta by congruence.
  assert (PREV r ≠ a) as Hpa by congruence.
  assert ((__len__ (mk hc mc sc C rt lk d) <? C) = true) as Hroom
    by (by apply Z.ltb_lt).
  destruct (decide (PREV r = rt)) as [Heq|Hne].
  - (* the queue is empty: the last link is the root *)
    assert (pl = r) as -> by congruence.
    exists a. eexists. split; [done|].
    enter. cbn [root max_size]. rewrite Hroom.
    erewrite bind_returned by (apply getfield_some; exact Hr).
    step_alloc a. clearbody a.
    unfold set_NEXT, set_PREV.
    erewrite bind_returned
      by (apply store_some; cbn; rewrite lookup_insert_ne by done; exact Hpl).
    erewrite bind_returned
      by (apply store_some; cbn; rewrite Heq; apply lookup_insert_eq).
    tidy. split; [reflexivity|]. cbn.
    split; [done|]. split; [done|]. split; [done|]. split; [done|].
    split; [by rewrite lookup_insert_ne, Heq, lookup_insert_ne,
              lookup_insert_eq by done|].
    split.
    + eexists. split; [apply lookup_insert_eq|]. done.
    + intros b l Hb Hl. exists l.
      rewrite lookup_insert_ne, Heq, lookup_insert_ne by done.
      rewrite decide_False by congruence.
      rewrite lookup_insert_ne by congruence. done.
  - exists a. eexists. split; [done|].
    enter. cbn [root max_size]. rewrite Hroom.
    erewrite bind_returned by (apply getfield_some; exact Hr).
    step_alloc a. clearbody a.
    unfold set_NEXT, set_PREV.
    erewrite bind_returned
      by (apply store_some; cbn; rewrite lookup_insert_ne by done; exact Hpl).
    erewrite bind_returned
      by (apply store_some; cbn; rewrite !lookup_insert_ne by done; exact Hr).
    tidy. split; [reflexivity|]. cbn.
    split; [done|]. split; [done|]. split; [done|]. split; [done|].
    split; [by rewrite !lookup_insert_ne, lookup_insert_eq by done|].
    split.
    + eexists. split; [apply lookup_insert_eq|]. done.
    + intros b l Hb Hl. rewrite lookup_insert_ne by done.
      destruct (decide (b = PREV r)) as [->|Hbp].
      * rewrite lookup_insert_eq. assert (l = pl) as -> by congruence.
        eexists. split; [done|]. done.
      * rewrite lookup_insert_ne by done.
        rewrite lookup_insert_ne by congruence. by exists l.
Qed.

End lru_assignment.

(** ** LRU: a hit *)

Section lru_hit.
Import LRU.

Lemma same_payload_refl s : same_payload s s.
Proof. intros b l Hl. by exists l. Qed.

(** Writing a pointer field of a link keeps all keys and results. *)
Lemma same_payload_store s0 s b l f :
  same_payload s0 s →
  links s !! b = Some l →
  KEY (f l) = KEY l → RESULT (f l) = RESULT l →
  same_payload s0 (set_links (insert b (f l)) s).
Proof.
  intros Hsame Hl Hk Hr c lc Hc.
  destruct (Hsame c lc Hc) as (lc' & Hc' & Hkc & Hrc). cbn.
  destruct (decide (b = c)) as [->|Hne].
  - rewrite lookup_insert_eq. exists (f l).
    assert (lc' = l) as -> by congruence. split; [done|]. split; congruence.
  - rewrite lookup_insert_ne by done. by exists lc'.
Qed.

Lemma same_payload_present s0 s b :
  same_payload s0 s → is_Some (links s0 !! b) → is_Some (links s !! b).
Proof. intros Hsame [l Hl]. destruct (Hsame b l Hl) as (l' & -> & _). eauto. Qed.

(** One write of a pointer field, on a link that was there at the start. *)
Lemma store_keeps s0 s b f :
  same_payload s0 s →
  is_Some (links s0 !! b) →
  (∀ l, KEY (f l) = KEY l ∧ RESULT (f l) = RESULT l) →
  ∃ l, links s !! b = Some l
       ∧ store b f s = Some (Returned tt, set_links (insert b (f l)) s)
       ∧ same_payload s0 (set_links (insert b (f l)) s).
Proof.
  intros Hsame Hb Hf.
  destruct (same_payload_present _ _ _ Hsame Hb) as [l Hl]. exists l.
  split; [done|]. split; [by apply store_some|].
  apply same_payload_store; [done..|apply Hf|apply Hf].
Qed.

(** The run of [self[key]] on a key of the index. *)
Lemma getitem_relinks key s a l r :
  dict s !! key = Some a →
  links s !! a = Some l →
  is_Some (links s !! PREV l) →
  is_Some (links s !! NEXT l) →
  links s !! root s = Some r →
  is_Some (links s !! PREV r) →
  ∃ s', __getitem__ key s = Some (Returned (RESULT l), s')
        ∧ dict s' = dict s
        ∧ root s' = root s ∧ max_size s' = max_size s
        ∧ hit_count s' = hit_count s + 1
        ∧ miss_count s' = miss_count s
        ∧ soft_miss_count s' = soft_miss_count s
        ∧ same_payload s s'
        ∧ (a ≠ root s →
           ∃ r' l', links s' !! root s = Some r' ∧ PREV r' = a
                    ∧ links s' !! a = Some l' ∧ NEXT l' = root s).
Proof.
  intros Hkey Hl Hlp Hln Hr Hlr.
  assert (is_Some (links s !! root s)) as Hrt by eauto.
  assert (is_Some (links s !! a)) as Ha by eauto.
  pose proof (same_payload_refl s) as H0.
  unfold __getitem__.
  erewrite bind_returned
    by (apply try_except_returned; unfold dict_getitem;
        rewrite Hkey; reflexivity).
  erewrite bind_returned by reflexivity.
  erewrite bind_returned by (unfold load; rewrite Hl; reflexivity).
  unfold set_NEXT, set_PREV.
  (* link_prev[NEXT] = link_next *)
  destruct (store_keeps s s (PREV l)
              (λ x, Link (PREV x) (NEXT l) (KEY x) (RESULT x)) H0 Hlp)
    as (l1 & Hl1 & Hst1 & H1); [done|].
  rewrite (bind_returned _ _ _ _ _ Hst1).
  (* link_next[PREV] = link_prev *)
  destruct (store_keeps s _ (NEXT l)
              (λ x, Link (PREV l) (NEXT x) (KEY x) (RESULT x)) H1 Hln)
    as (l2 & Hl2 & Hst2 & H2); [done|].
  rewrite (bind_returned _ _ _ _ _ Hst2).
  (* last = root[PREV] *)
  destruct (same_payload_present _ _ _ H2 Hrt) as [r2 Hr2].
  rewrite (bind_returned _ _ _ _ _ (getfield_some PREV _ _ _ Hr2)).
  assert (is_Some (links s !! PREV r2)) as Hlast.
  { cbn in Hr2. destruct (decide (NEXT l = root s)) as [Hnr|Hnr].
    - rewrite Hnr, lookup_insert_eq in Hr2. by injection Hr2 as <-.
    - rewrite lookup_insert_ne in Hr2 by done.
      destruct (decide (PREV l = root s)) as [Hpr|Hpr].
      + rewrite Hpr, lookup_insert_eq in Hr2. injection Hr2 as <-. cbn.
        rewrite Hpr in Hl1. assert (l1 = r) as -> by congruence. done.
      + rewrite lookup_insert_ne in Hr2 by done.
        assert (r2 = r) as -> by congruence. done. }
  (* last[NEXT] = root[PREV] = link *)
  destruct (store_keeps s _ (PREV r2)
              (λ x, Link (PREV x) a (KEY x) (RESULT x)) H2 Hlast)
    as (l3 & Hl3 & Hst3 & H3); [done|].
  rewrite (bind_returned _ _ _ _ _ Hst3).
  destruct (store_keeps s _ (root s)
              (λ x, Link a (NEXT x) (KEY x) (RESULT x)) H3 Hrt)
    as (l4 & Hl4 & Hst4 & H4); [done|].
  rewrite (bind_returned _ _ _ _ _ Hst4).
  (* link[PREV] = last; link[NEXT] = root *)
  destruct (store_keeps s _ a
              (λ x, Link (PREV r2) (NEXT x) (KEY x) (RESULT x)) H4 Ha)
    as (l5 & Hl5 & Hst5 & H5); [done|].
  rewrite (bind_returned _ _ _ _ _ Hst5).
  destruct (store_keeps s _ a
              (λ x, Link (PREV x) (root s) (KEY x) (RESULT x)) H5 Ha)
    as (l6 & Hl6 & Hst6 & H6); [done|].
  rewrite (bind_returned _ _ _ _ _ Hst6).
  erewrite bind_returned by reflexivity.
  eexists. split; [reflexivity|]. cbn.
  split; [done|]. split; [done|]. split; [done|]. split; [lia|].
  split; [done|]. split; [done|]. split; [exact H6|].
  intros Hne. eexists _, _.
  rewrite !(lookup_insert_ne _ a (root s)) by done.
  rewrite !lookup_insert_eq. done.
Qed.

(** A hit.  When the key is in the index and the links around its link
    and around the root are there, [self[key]] and [self.get(key, default)]
    return the result stored in the link of the key, never the default, and
    count one hit; the index, the capacity, the root, the miss counters and
    the key and result of every link are as before; and, unless the link of
    the key is the root itself, that link is now the one before the root,
    the place of the most recently used. *)
Theorem lookup_on_hit key default s a l r :
  dict s !! key = Some a →
  links s !! a = Some l →
  is_Some (links s !! PREV l) →
  is_Some (links s !! NEXT l) →
  links s !! root s = Some r →
  is_Some (links s !! PREV r) →
  ∃ s', __getitem__ key s = Some (Returned (RESULT l), s')
        ∧ get key default s = Some (Returned (RESULT l), s')
        ∧ dict s' = dict s
        ∧ root s' = root s ∧ max_size s' = max_size s
        ∧ hit_count s' = hit_count s + 1
        ∧ miss_count s' = miss_count s
        ∧ soft_miss_count s' = soft_miss_count s
        ∧ same_payload s s'
        ∧ (a ≠ root s →
           ∃ r' l', links s' !! root s = Some r' ∧ PREV r' = a
                    ∧ links s' !! a = Some l' ∧ NEXT l' = root s).
Proof.
  intros Hkey Hl Hlp Hln Hr Hlr.
  destruct (getitem_relinks key s a l r Hkey Hl Hlp Hln Hr Hlr)
    as (s' & Hrun & Hrest).
  exists s'. split; [exact Hrun|]. split; [|exact Hrest].
  unfold get. by apply try_except_returned.
Qed.

Lemma lookup_on_hit_witness :
  let a := PyStr "a" in
  let s := mk 0 0 0 2 0%nat
             {[ 0%nat := Link 1%nat 1%nat PyNone PyNone;
                1%nat := Link 0%nat 0%nat a (PyInt 1) ]}
             {[ a := 1%nat ]} in
  ∃ s', __getitem__ a s = Some (Returned (PyInt 1), s')
        ∧ get a PyNone s = Some (Returned (PyInt 1), s')
        ∧ dict s' = dict s
        ∧ root s' = root s ∧ max_size s' = max_size s
        ∧ hit_count s' = hit_count s + 1
        ∧ miss_count s' = miss_count s
        ∧ soft_miss_count s' = soft_miss_count s
        ∧ same_payload s s'
        ∧ (1%nat ≠ root s →
           ∃ r' l', links s' !! root s = Some r' ∧ PREV r' = 1%nat
                    ∧ links s' !! 1%nat = Some l' ∧ NEXT l' = root s).
Proof.
  intros a s.
  apply (lookup_on_hit a PyNone s 1%nat (Link 0%nat 0%nat a (PyInt 1))
           (Link 1%nat 1%nat PyNone PyNone)); vm_compute; eauto.
Defined.

End lru_hit.

(** ** LRU: assignments below capacity *)

Section lru_below_capacity.
Import LRU.

(** With the links of the index in place, the value map is the map of
    what is stored for each key. *)
Lemma value_map_stored s :
  linked s →
  ∃ m, _get_value_map s = Some m ∧ ∀ k, m !! k = stored s k.
Proof.
  intros [_ Hdict].
  exists ((λ a, default PyNone (RESULT <$> links s !! a)) <$> dict s).
  split.
  - apply value_map_lookup. intros k a Hk.
    destruct (Hdict k a Hk) as [l ->]. done.
  - intros k. rewrite lookup_fmap. unfold stored.
    destruct (dict s !! k) as [a|] eqn:Hk; [|done]. cbn.
    destruct (Hdict k a Hk) as [l ->]. done.
Qed.

Lemma value_map_stored_eq s m :
  linked s → (∀ k, m !! k = stored s k) → _get_value_map s = Some m.
Proof.
  intros Hlinked Hm. destruct (value_map_stored s Hlinked) as (m' & -> & Hm').
  f_equal. apply map_eq. intros k. by rewrite Hm, Hm'.
Qed.

Lemma value_map_stored_inv s m k :
  linked s → _get_value_map s = Some m → m !! k = stored s k.
Proof.
  intros Hlinked Hvm. destruct (value_map_stored s Hlinked) as (m' & Hvm' & Hm').
  assert (m = m') as -> by congruence. apply Hm'.
Qed.

(** An assignment below capacity, on the contents. *)
Lemma setitem_appends_stored key value s :
  linked s → __len__ s < max_size s →
  ∃ a s', __setitem__ key value s = Some (Returned tt, s')
        ∧ linked s'
        ∧ dict s' = <[key:=a]> (dict s)
        ∧ links s' !! a = Some (Link (PREV (default (Link a a PyNone PyNone)
                                     (links s !! root s))) (root s) key value)
        ∧ is_Some (links s !! root s)
        ∧ root s' = root s ∧ max_size s' = max_size s
        ∧ (hit_count s', miss_count s', soft_miss_count s')
          = (hit_count s, miss_count s, soft_miss_count s)
        ∧ same_payload s s'
        ∧ (∃ r', links s' !! root s = Some r' ∧ PREV r' = a)
        ∧ stored s' key = Some value
        ∧ (∀ k, k ≠ key → stored s' k = stored s k)
        ∧ links s !! a = None.
Proof.
  intros [(r & Hr & [pl Hpl]) Hdict] Hlt.
  destruct (setitem_appends key value s r pl Hlt Hr Hpl)
    as (a & s' & Ha & Hrun & Hd & Hroot & Hmax & Hcnt & Hla & Hr' & Hothers).
  destruct Hr' as (r' & Hr' & Hpr' & Hkr' & Hrr' & _).
  assert (same_payload s s') as Hsame.
  { intros b l Hl. destruct (decide (b = root s)) as [->|Hb].
    - exists r'. assert (l = r) as -> by congruence. done.
    - destruct (Hothers b l Hb Hl) as (l' & ? & ? & ? & _). by exists l'. }
  exists a, s'. split; [done|]. split.
  { split.
    - exists r'. rewrite Hroot. split; [done|]. rewrite Hpr', Hla. eauto.
    - intros k b. rewrite Hd. intros [[<- <-]|[_ Hk]]%lookup_insert_Some.
      + rewrite Hla. eauto.
      + apply (same_payload_present s); [done|]. by apply (Hdict k). }
  split; [done|]. split; [by rewrite Hla, Hr|]. split; [eauto|].
  split; [done|]. split; [done|]. split; [done|]. split; [done|].
  split; [eauto|]. split; [|split; [|done]].
  - unfold stored. rewrite Hd, lookup_insert_eq. cbn. by rewrite Hla.
  - intros k Hk. unfold stored. rewrite Hd, lookup_insert_ne by done.
    destruct (dict s !! k) as [b|] eqn:Hkb; [|done]. cbn.
    destruct (Hdict k b Hkb) as [l Hl].
    destruct (Hsame b l Hl) as (l' & Hl' & _ & Hres).
    rewrite Hl, Hl'. cbn. by rewrite Hres.
Qed.

(** An assignment below capacity, on the value map. *)
Lemma setitem_below key value s m :
  linked s → __len__ s < max_size s →
  _get_value_map s = Some m →
  ∃ s', __setitem__ key value s = Some (Returned tt, s')
        ∧ _get_value_map s' = Some (<[key:=value]> m)
        ∧ linked s'
        ∧ max_size s' = max_size s
        ∧ __len__ s' = (if decide (is_Some (dict s !! key))
                        then __len__ s else __len__ s + 1)
        ∧ (hit_count s', miss_count s', soft_miss_count s')
          = (hit_count s, miss_count s, soft_miss_count s).
Proof.
  intros Hlinked Hlt Hvm.
  destruct (setitem_appends_stored key value s Hlinked Hlt)
    as (a & s' & Hrun & Hlinked' & Hd & _ & _ & _ & Hmax & Hcnt & _ & _
        & Hkey & Hrest & _).
  exists s'. split; [done|]. split.
  { apply value_map_stored_eq; [done|]. intros k.
    destruct (decide (k = key)) as [->|Hk].
    - by rewrite lookup_insert_eq.
    - rewrite lookup_insert_ne, (Hrest k) by done.
      by apply value_map_stored_inv. }
  split; [done|]. split; [done|]. split; [|done].
  unfold __len__, len. rewrite Hd, map_size_insert.
  case_decide as Hin.
  - destruct Hin as [b ->]. done.
  - apply eq_None_not_Some in Hin. rewrite Hin. lia.
Qed.

(** Below capacity, [self[key] = value] returns, and the contents are the
    former contents with [key] standing for [value], whether or not the key
    was there; the number of keys grows by one for a new key. *)
Theorem setitem_below_capacity key value s m :
  linked s → __len__ s < max_size s →
  _get_value_map s = Some m →
  ∃ s', __setitem__ key value s = Some (Returned tt, s')
        ∧ _get_value_map s' = Some (<[key:=value]> m)
        ∧ linked s'
        ∧ max_size s' = max_size s
        ∧ __len__ s' = (if decide (is_Some (dict s !! key))
                        then __len__ s else __len__ s + 1)
        ∧ (hit_count s', miss_count s', soft_miss_count s')
          = (hit_count s, miss_count s, soft_miss_count s).
Proof. apply setitem_below. Qed.

Lemma setitem_below_capacity_witness :
  ∃ s', __setitem__ (PyStr "a") (PyInt 1) (blank 2)
          = Some (Returned tt, s')
        ∧ _get_value_map s' = Some (<[PyStr "a":=PyInt 1]> ∅)
        ∧ linked s'
        ∧ max_size s' = max_size (blank 2)
        ∧ __len__ s' = (if decide (is_Some (dict (blank 2) !! PyStr "a"))
                        then __len__ (blank 2) else __len__ (blank 2) + 1)
        ∧ (hit_count s', miss_count s', soft_miss_count s')
          = (hit_count (blank 2), miss_count (blank 2),
             soft_miss_count (blank 2)).
Proof.
  apply (setitem_below_capacity (PyStr "a") (PyInt 1) (blank 2) ∅).
  - split.
    + exists (Link 0%nat 0%nat PyNone PyNone). split; [reflexivity|].
      exists (Link 0%nat 0%nat PyNone PyNone). reflexivity.
    + intros k a Hk. cbn in Hk. by rewrite lookup_empty in Hk.
  - vm_compute. reflexivity.
  - vm_compute. reflexivity.
Defined.

Lemma same_payload_stored s s' :
  linked s → same_payload s s' → dict s' = dict s →
  ∀ k, stored s' k = stored s k.
Proof.
  intros [_ Hdict] Hsame Hd k. unfold stored. rewrite Hd.
  destruct (dict s !! k) as [b|] eqn:Hkb; [|done]. cbn.
  destruct (Hdict k b Hkb) as [l Hl].
  destruct (Hsame b l Hl) as (l' & Hl' & _ & Hres).
  rewrite Hl, Hl'. cbn. by rewrite Hres.
Qed.

(** Round trip below capacity: after [self[key] = value], both
    [self[key]] and [self.get(key, default)] return [value]; the lookup
    counts one hit and leaves the contents as the assignment made them. *)
Theorem set_then_get key value default s :
  linked s → __len__ s < max_size s →
  ∃ s1 s2, __setitem__ key value s = Some (Returned tt, s1)
         ∧ __getitem__ key s1 = Some (Returned value, s2)
         ∧ get key default s1 = Some (Returned value, s2)
         ∧ dict s2 = dict s1
         ∧ _get_value_map s2 = _get_value_map s1
         ∧ hit_count s2 = hit_count s + 1
         ∧ miss_count s2 = miss_count s
         ∧ soft_miss_count s2 = soft_miss_count s.
Proof.
  intros Hlinked Hlt.
  destruct (setitem_appends_stored key value s Hlinked Hlt)
    as (a & s1 & Hrun & Hlinked1 & Hd & Hla & [r Hr] & Hroot & Hmax & Hcnt
        & Hsame & (r1 & Hr1 & Hpr1) & Hkey & Hrest & Ha).
  rewrite Hr in Hla. cbn in Hla.
  destruct Hlinked as [(r0 & Hr0 & Hpr0) Hdict].
  assert (r0 = r) as -> by congruence.
  assert (a ≠ root s) as Hne by (intros ->; by rewrite Hr in Ha).
  rewrite <- Hroot in Hr1.
  destruct (getitem_relinks key s1 a (Link (PREV r) (root s) key value) r1)
    as (s2 & Hget & Hd2 & Hroot2 & Hmax2 & Hhit & Hmiss & Hsoft & Hsame2
        & Hlast).
  { by rewrite Hd, lookup_insert_eq. }
  { done. }
  { cbn. by apply (same_payload_present s). }
  { cbn. rewrite <- Hroot. eauto. }
  { done. }
  { rewrite Hpr1, Hla. eauto. }
  exists s1, s2. split; [done|]. split; [done|].
  split; [unfold get; by apply try_except_returned|].
  split; [done|]. split.
  { destruct (value_map_stored s1 Hlinked1) as (m & Hm & Hlook).
    rewrite Hm. apply value_map_stored_eq.
    - destruct (Hlast ltac:(by rewrite Hroot)) as (r2 & l2 & Hr2 & Hpr2 & Hl2 & _).
      split.
      + exists r2. rewrite Hroot2. split; [done|]. rewrite Hpr2, Hl2. eauto.
      + intros k b. rewrite Hd2. intros Hk.
        apply (same_payload_present s1); [done|].
        by apply (proj2 Hlinked1 k).
    - intros k. rewrite Hlook. symmetry. by apply same_payload_stored. }
  injection Hcnt as Hc1 Hc2 Hc3.
  split; [lia|]. split; congruence.
Qed.

Lemma set_then_get_witness :
  ∃ s1 s2, __setitem__ (PyStr "a") (PyInt 1) (blank 2)
             = Some (Returned tt, s1)
         ∧ __getitem__ (PyStr "a") s1 = Some (Returned (PyInt 1), s2)
         ∧ get (PyStr "a") PyNone s1 = Some (Returned (PyInt 1), s2)
         ∧ dict s2 = dict s1
         ∧ _get_value_map s2 = _get_value_map s1
         ∧ hit_count s2 = hit_count (blank 2) + 1
         ∧ miss_count s2 = miss_count (blank 2)
         ∧ soft_miss_count s2 = soft_miss_count (blank 2).
Proof.
  apply (set_then_get (PyStr "a") (PyInt 1) PyNone (blank 2)).
  - split.
    + exists (Link 0%nat 0%nat PyNone PyNone). split; [reflexivity|].
      exists (Link 0%nat 0%nat PyNone PyNone). reflexivity.
    + intros k a Hk. cbn in Hk. by rewrite lookup_empty in Hk.
  - vm_compute. reflexivity.
Defined.

End lru_below_capacity.

(** ** LRU: assignments at capacity *)

Section lru_at_capacity.
Import LRU.

(** An assignment at capacity, step by step. *)
Lemma setitem_full key value s r f :
  max_size s ≤ __len__ s →
  links s !! root s = Some r →
  NEXT r ≠ root s →
  links s !! NEXT r = Some f →
  ∃ o s', __setitem__ key value s = Some (o, s')
        ∧ root s' = root s ∧ max_size s' = max_size s
        ∧ (hit_count s', miss_count s', soft_miss_count s')
          = (hit_count s, miss_count s, soft_miss_count s)
        ∧ links s' = <[NEXT r := Link (PREV f) (NEXT f) PyNone PyNone]>
                       (<[root s := Link (PREV r) (NEXT r) key value]>
                          (links s))
        ∧ (is_Some (dict s !! KEY f) →
           o = Returned tt
           ∧ dict s' = <[key := root s]> (delete (KEY f) (dict s)))
        ∧ (dict s !! KEY f = None →
           o = Raised (KeyError (KEY f)) ∧ dict s' = dict s).
Proof.
  destruct s as [hc mc sc C rt lk d].
  intros Hfull Hr Hne Hf. cbn in * |-.
  enter. cbn.
  destruct (Z.ltb_spec (__len__ (mk hc mc sc C rt lk d)) C) as [?|_]; [lia|].
  unfold set_KEY, set_RESULT.
  erewrite bind_returned by (apply store_some; exact Hr).
  erewrite bind_returned by (apply store_some; cbn; apply lookup_insert_eq).
  erewrite bind_returned by (apply getfield_some; cbn; apply lookup_insert_eq).
  cbn [NEXT].
  erewrite bind_returned
    by (apply getfield_some; cbn; by rewrite !lookup_insert_ne by done).
  erewrite bind_returned
    by (apply getfield_some; cbn; by rewrite !lookup_insert_ne by done).
  erewrite bind_returned
    by (apply store_some; cbn; by rewrite !lookup_insert_ne by done).
  erewrite bind_returned by (apply store_some; cbn; apply lookup_insert_eq).
  unfold bind, dict_delitem, dict_setitem, modify. tidy. cbn.
  assert (<[NEXT r:=Link (PREV f) (NEXT f) PyNone PyNone]>
            (<[NEXT r:=Link (PREV f) (NEXT f) PyNone (RESULT f)]>
               (<[rt:=Link (PREV r) (NEXT r) key value]>
                  (<[rt:=Link (PREV r) (NEXT r) key (RESULT r)]> lk)))
          = <[NEXT r:=Link (PREV f) (NEXT f) PyNone PyNone]>
              (<[rt:=Link (PREV r) (NEXT r) key value]> lk)) as Hlk.
  { rewrite insert_insert_eq. f_equal. by rewrite insert_insert_eq. }
  destruct (d !! KEY f) as [b|] eqn:Hold.
  - eexists _, _. split; [reflexivity|]. cbn.
    split; [done|]. split; [done|]. split; [done|]. split; [exact Hlk|].
    split; [done|]. intros [=].
  - eexists _, _. split; [reflexivity|]. cbn.
    split; [done|]. split; [done|]. split; [done|]. split; [exact Hlk|].
    split; [by intros [? [=]]|done].
Qed.

(** At capacity, with a link [f] after the root that is not the root:
    [self[key] = value] writes the pair into the root link and blanks the
    key and result of [f], whatever comes next; [self.root] and the
    counters stay.  When the key of [f] is in the index, that key is
    removed, [key] is indexed at the root link and the call returns; when
    it is not, the call raises [KeyError] of the key of [f], the writes
    to the two links done and the index as it was. *)
Theorem setitem_at_capacity key value s r f :
  max_size s ≤ __len__ s →
  links s !! root s = Some r →
  NEXT r ≠ root s →
  links s !! NEXT r = Some f →
  ∃ o s', __setitem__ key value s = Some (o, s')
        ∧ root s' = root s ∧ max_size s' = max_size s
        ∧ (hit_count s', miss_count s', soft_miss_count s')
          = (hit_count s, miss_count s, soft_miss_count s)
        ∧ links s' = <[NEXT r := Link (PREV f) (NEXT f) PyNone PyNone]>
                       (<[root s := Link (PREV r) (NEXT r) key value]>
                          (links s))
        ∧ (is_Some (dict s !! KEY f) →
           o = Returned tt
           ∧ dict s' = <[key := root s]> (delete (KEY f) (dict s)))
        ∧ (dict s !! KEY f = None →
           o = Raised (KeyError (KEY f)) ∧ dict s' = dict s).
Proof. apply setitem_full. Qed.

Lemma setitem_at_capacity_witness :
  let a := PyStr "a" in
  let s := mk 0 0 0 1 0%nat
             {[ 0%nat := Link 1%nat 1%nat PyNone PyNone;
                1%nat := Link 0%nat 0%nat a (PyInt 1) ]}
             {[ a := 1%nat ]} in
  let r := Link 1%nat 1%nat PyNone PyNone in
  let f := Link 0%nat 0%nat a (PyInt 1) in
  ∃ o s', __setitem__ (PyStr "b") (PyInt 2) s = Some (o, s')
        ∧ root s' = root s ∧ max_size s' = max_size s
        ∧ (hit_count s', miss_count s', soft_miss_count s')
          = (hit_count s, miss_count s, soft_miss_count s)
        ∧ links s' = <[NEXT r := Link (PREV f) (NEXT f) PyNone PyNone]>
                       (<[root s := Link (PREV r) (NEXT r) (PyStr "b")
                                      (PyInt 2)]>
                          (links s))
        ∧ (is_Some (dict s !! KEY f) →
           o = Returned tt
           ∧ dict s' = <[PyStr "b" := root s]> (delete (KEY f) (dict s)))
        ∧ (dict s !! KEY f = None →
           o = Raised (KeyError (KEY f)) ∧ dict s' = dict s).
Proof.
  intros a s r f.
  apply (setitem_at_capacity (PyStr "b") (PyInt 2) s r f).
  - vm_compute. discriminate.
  - reflexivity.
  - cbn. lia.
  - reflexivity.
Defined.

(** A cache made with a capacity of zero or less takes no key: every
    assignment raises [KeyError] of its own key and leaves the cache as
    the constructor made it. *)
Theorem setitem_no_capacity C key value :
  C ≤ 0 →
  __init__ C None None = Some (Returned tt, blank C)
  ∧ __setitem__ key value (blank C) = Some (Raised (KeyError key), blank C).
Proof.
  intros HC. split; [reflexivity|].
  unfold blank. enter. cbn.
  destruct (Z.ltb_spec (__len__ (mk 0 0 0 C 0%nat
              {[ 0%nat := Link 0%nat 0%nat PyNone PyNone ]} ∅)) C) as [Hlt|_].
  { unfold __len__, len in Hlt. cbn in Hlt. rewrite map_size_empty in Hlt. lia. }
  unfold set_KEY, set_RESULT.
  step_store. step_store. step_load. cbn [NEXT].
  step_load. step_load. cbn [KEY].
  step_store. step_store.
  unfold bind, dict_delitem. tidy. cbn.
  rewrite lookup_empty. reflexivity.
Qed.

Lemma setitem_no_capacity_witness :
  __init__ 0 None None = Some (Returned tt, blank 0)
  ∧ __setitem__ (PyStr "a") (PyInt 1) (blank 0)
    = Some (Raised (KeyError (PyStr "a")), blank 0).
Proof.
  apply (setitem_no_capacity 0 (PyStr "a") (PyInt 1)). lia.
Defined.

End lru_at_capacity.

(** ** LRU: loading many pairs *)

Section lru_preload.
Import LRU.

Lemma linked_blank C : linked (blank C).
Proof.
  split.
  - exists (Link 0%nat 0%nat PyNone PyNone). split; [reflexivity|].
    exists (Link 0%nat 0%nat PyNone PyNone). reflexivity.
  - intros k a Hk. cbn in Hk. by rewrite lookup_empty in Hk.
Qed.

Lemma value_map_blank C : _get_value_map (blank C) = Some ∅.
Proof. reflexivity. Qed.

Lemma keyed_blank C : keyed (blank C).
Proof.
  split.
  - by exists (Link 0%nat 0%nat PyNone PyNone).
  - intros k a Hk. cbn in Hk. by rewrite lookup_empty in Hk.
Qed.

(** Pairs written one after the other into a map: the later ones win. *)
Lemma foldl_insert_reverse {A} (f g : A → pyobj) (l : list A) :
  ∀ m : gmap pyobj pyobj,
  foldl (λ m x, <[f x:=g x]> m) m l
  = list_to_map ((λ x, (f x, g x)) <$> reverse l) ∪ m.
Proof.
  induction l as [|x l IH]; intros m.
  - cbn. by rewrite (left_id_L ∅ (∪)).
  - cbn [foldl]. rewrite IH, reverse_cons, fmap_app, list_to_map_app.
    cbn [fmap list_fmap list_to_map foldr uncurry].
    rewrite <- (assoc_L (∪)). f_equal.
    by rewrite insert_empty, <- insert_union_singleton_l.
Qed.

Lemma foldl_insert_nodup {A} (f g : A → pyobj) (l : list A) :
  NoDup (f <$> l) →
  ∀ m : gmap pyobj pyobj,
  foldl (λ m x, <[f x:=g x]> m) m l
  = list_to_map ((λ x, (f x, g x)) <$> l) ∪ m.
Proof.
  induction l as [|x l IH]; intros Hnd m; cbn.
  - by rewrite (left_id_L ∅ (∪)).
  - cbn in Hnd. apply NoDup_cons in Hnd as [Hx Hnd].
    rewrite IH by done. rewrite <- insert_union_l.
    symmetry. apply insert_union_r.
    apply not_elem_of_list_to_map_1. by rewrite <- list_fmap_compose.
Qed.

Lemma foldl_insert_map_to_list (d m : gmap pyobj pyobj) :
  foldl (λ m (kv : pyobj * pyobj), <[kv.1:=kv.2]> m) m (map_to_list d) = d ∪ m.
Proof.
  rewrite (foldl_insert_nodup fst snd) by apply NoDup_fst_map_to_list.
  f_equal. rewrite <- (list_to_map_to_list d) at 2. f_equal.
  rewrite <- (list_fmap_id (map_to_list d)) at 2.
  apply list_fmap_ext. by intros ? [??].
Qed.

Lemma foldl_insert_keywords (kw : gmap string pyobj) (m : gmap pyobj pyobj) :
  foldl (λ m (kv : string * pyobj), <[PyStr kv.1:=kv.2]> m) m (map_to_list kw)
  = kmap PyStr kw ∪ m.
Proof.
  rewrite (foldl_insert_nodup (λ kv, PyStr kv.1) snd); [done|].
  change (NoDup ((PyStr ∘ fst) <$> map_to_list kw)).
  rewrite (list_fmap_compose fst PyStr).
  apply NoDup_fmap_2; [by intros ?? [=]|apply NoDup_fst_map_to_list].
Qed.

(** Below capacity an assignment keeps the keys written in the links. *)
Lemma setitem_appends_keyed key value s s' :
  linked s → __len__ s < max_size s → keyed s →
  __setitem__ key value s = Some (Returned tt, s') → keyed s'.
Proof.
  intros [(r & Hr & [pl Hpl]) Hdict] Hlt [(r0 & Hr0 & Hkr) Hkeyed] Hrun.
  assert (r0 = r) as -> by congruence.
  destruct (setitem_appends key value s r pl Hlt Hr Hpl)
    as (a & s'' & Ha & Hrun' & Hd & Hroot & Hmax & Hcnt & Hla & Hr' & Hothers).
  assert (s'' = s') as -> by congruence.
  destruct Hr' as (r' & Hr' & Hpr' & Hkr' & Hrr' & _).
  split.
  - exists r'. rewrite Hroot. split; [done|congruence].
  - intros k b. rewrite Hd. intros [[<- <-]|[_ Hk]]%lookup_insert_Some.
    + eexists. split; [exact Hla|done].
    + destruct (Hkeyed k b Hk) as (l & Hl & Hkl).
      destruct (decide (b = root s)) as [->|Hb].
      * exists r'. split; [done|]. congruence.
      * destruct (Hothers b l Hb Hl) as (l' & Hl' & Hkl' & _).
        exists l'. split; [done|congruence].
Qed.

(** A loop of assignments that fits below the capacity. *)
Lemma for_each_setitem_below {A} (f g : A → pyobj) (l : list A) : ∀ s m,
  linked s →
  __len__ s + Z.of_nat (length l) ≤ max_size s →
  _get_value_map s = Some m →
  ∃ s', for_each l (λ x, __setitem__ (f x) (g x)) s = Some (Returned tt, s')
        ∧ _get_value_map s' = Some (foldl (λ m x, <[f x:=g x]> m) m l)
        ∧ linked s'
        ∧ max_size s' = max_size s
        ∧ __len__ s' ≤ __len__ s + Z.of_nat (length l)
        ∧ (hit_count s', miss_count s', soft_miss_count s')
          = (hit_count s, miss_count s, soft_miss_count s)
        ∧ (keyed s → keyed s').
Proof.
  induction l as [|x l IH]; intros s m Hlinked Hroom Hvm.
  - exists s. cbn. split; [done|]. split; [done|]. split; [done|].
    split; [done|]. split; [lia|done].
  - cbn [length] in Hroom.
    destruct (setitem_below (f x) (g x) s m Hlinked ltac:(lia) Hvm)
      as (s1 & Hrun & Hvm1 & Hlinked1 & Hmax1 & Hlen1 & Hcnt1).
    assert (__len__ s1 ≤ __len__ s + 1) as Hle by (case_decide; lia).
    destruct (IH s1 _ Hlinked1 ltac:(rewrite Hmax1; lia) Hvm1)
      as (s' & Hrun' & Hvm' & Hlinked' & Hmax' & Hlen' & Hcnt' & Hkeyed').
    exists s'. cbn [for_each foldl]. rewrite (bind_returned _ _ _ _ _ Hrun).
    split; [done|]. split; [done|]. split; [done|].
    split; [congruence|]. split; [cbn [length]; lia|].
    split; [congruence|].
    intros Hkeyed. apply Hkeyed'.
    by apply (setitem_appends_keyed (f x) (g x) s s1); [|lia|..].
Qed.

(** [del self[key]] on a key of the index. *)
Lemma delitem_present key s m :
  linked s → is_Some (dict s !! key) → _get_value_map s = Some m →
  ∃ s', __delitem__ key s = Some (Returned tt, s')
        ∧ linked s'
        ∧ _get_value_map s' = Some (delete key m)
        ∧ max_size s' = max_size s
        ∧ __len__ s' = __len__ s - 1
        ∧ (hit_count s', miss_count s', soft_miss_count s')
          = (hit_count s, miss_count s, soft_miss_count s).
Proof.
  intros Hlinked [a Ha] Hvm.
  exists (set_dict (delete key) s).
  unfold __delitem__, dict_delitem. rewrite Ha.
  assert (linked (set_dict (delete key) s)) as Hlinked'.
  { destruct Hlinked as [Hroot Hdict]. split; [exact Hroot|].
    intros k b. cbn. intros [_ Hk]%lookup_delete_Some. by apply (Hdict k). }
  split; [done|]. split; [done|]. split.
  { apply value_map_stored_eq; [done|]. intros k. unfold stored. cbn.
    destruct (decide (k = key)) as [->|Hk].
    - by rewrite !lookup_delete_eq.
    - rewrite !lookup_delete_ne by done.
      by apply (value_map_stored_inv s). }
  split; [done|]. split; [|done].
  unfold __len__, len. cbn. rewrite map_size_delete, Ha.
  assert (size (dict s) ≠ 0%nat).
  { intros Hz. apply map_size_empty_inv in Hz. by rewrite Hz in Ha. }
  lia.
Qed.

(** The loop of [update] over a sequence of pairs, below capacity. *)
Lemma update_pairs_below (l : list (pyobj * pyobj)) : ∀ seen s m,
  linked s →
  __len__ s + Z.of_nat (length l) ≤ max_size s →
  _get_value_map s = Some m →
  ∃ s', update_pairs l seen s = Some (Returned tt, s')
        ∧ _get_value_map s'
          = Some (foldl (λ m (kv : pyobj * pyobj), <[kv.1:=kv.2]> m) m l)
        ∧ linked s'
        ∧ max_size s' = max_size s
        ∧ __len__ s' ≤ __len__ s + Z.of_nat (length l)
        ∧ (hit_count s', miss_count s', soft_miss_count s')
          = (hit_count s, miss_count s, soft_miss_count s).
Proof.
  induction l as [|[k v] l IH]; intros seen s m Hlinked Hroom Hvm.
  - exists s. cbn. split; [done|]. split; [done|]. split; [done|].
    split; [done|]. split; [lia|done].
  - cbn [length] in Hroom. cbn [update_pairs foldl fst snd].
    erewrite bind_returned by reflexivity.
    destruct (bool_decide (k ∉ seen) && __contains__ k s) eqn:Hif.
    + apply andb_true_iff in Hif as [_ Hin].
      apply bool_decide_eq_true in Hin.
      destruct (delitem_present k s m Hlinked Hin Hvm)
        as (s0 & Hdel & Hlinked0 & Hvm0 & Hmax0 & Hlen0 & Hcnt0).
      destruct (setitem_below k v s0 _ Hlinked0 ltac:(lia) Hvm0)
        as (s1 & Hrun & Hvm1 & Hlinked1 & Hmax1 & Hlen1 & Hcnt1).
      rewrite insert_delete_eq in Hvm1.
      assert (__len__ s1 ≤ __len__ s0 + 1) as Hle by (case_decide; lia).
      destruct (IH ({[k]} ∪ seen) s1 _ Hlinked1 ltac:(lia) Hvm1)
        as (s' & Hrun' & Hvm' & Hlinked' & Hmax' & Hlen' & Hcnt').
      exists s'. rewrite (bind_returned _ _ _ _ _ Hdel).
      rewrite (bind_returned _ _ _ _ _ Hrun).
      split; [done|]. split; [done|]. split; [done|].
      split; [congruence|]. split; [cbn [length]; lia|congruence].
    + destruct (setitem_below k v s m Hlinked ltac:(lia) Hvm)
        as (s1 & Hrun & Hvm1 & Hlinked1 & Hmax1 & Hlen1 & Hcnt1).
      assert (__len__ s1 ≤ __len__ s + 1) as Hle by (case_decide; lia).
      destruct (IH seen s1 _ Hlinked1 ltac:(lia) Hvm1)
        as (s' & Hrun' & Hvm' & Hlinked' & Hmax' & Hlen' & Hcnt').
      exists s'. rewrite (bind_returned _ _ _ _ _ Hrun).
      split; [done|]. split; [done|]. split; [done|].
      split; [congruence|]. split; [cbn [length]; lia|congruence].
Qed.

(** [update] from a dictionary, with room for all of it. *)
Lemma update_dict_below d kw s m :
  linked s →
  __len__ s + len d + Z.of_nat (size kw) ≤ max_size s →
  _get_value_map s = Some m →
  ∃ s', update (E_dict d) kw s = Some (Returned tt, s')
        ∧ _get_value_map s' = Some (kmap PyStr kw ∪ (d ∪ m))
        ∧ linked s'
        ∧ max_size s' = max_size s
        ∧ (hit_count s', miss_count s', soft_miss_count s')
          = (hit_count s, miss_count s, soft_miss_count s).
Proof.
  intros Hlinked Hroom Hvm. unfold len in Hroom.
  destruct (for_each_setitem_below fst snd (map_to_list d) s m Hlinked)
    as (s1 & Hrun1 & Hvm1 & Hlinked1 & Hmax1 & Hlen1 & Hcnt1 & _);
    [rewrite length_map_to_list; lia|done|].
  rewrite length_map_to_list in Hlen1.
  rewrite foldl_insert_map_to_list in Hvm1.
  destruct (for_each_setitem_below (λ kv : string * pyobj, PyStr kv.1) snd
              (map_to_list kw) s1 (d ∪ m) Hlinked1)
    as (s2 & Hrun2 & Hvm2 & Hlinked2 & Hmax2 & Hlen2 & Hcnt2 & _);
    [rewrite length_map_to_list; lia|exact Hvm1|].
  rewrite foldl_insert_keywords in Hvm2.
  exists s2. unfold update. rewrite (bind_returned _ _ _ _ _ Hrun1).
  split; [done|]. split; [done|]. split; [done|]. split; congruence.
Qed.

(** [self.update(d, **kw)] for a dictionary [d], when the cache has room
    for every pair given: the call returns and the contents are the
    former contents overridden by [d], overridden in turn by the keyword
    arguments; the counters are untouched. *)
Theorem update_from_dict d kw s m :
  linked s →
  __len__ s + len d + Z.of_nat (size kw) ≤ max_size s →
  _get_value_map s = Some m →
  ∃ s', update (E_dict d) kw s = Some (Returned tt, s')
        ∧ _get_value_map s' = Some (kmap PyStr kw ∪ (d ∪ m))
        ∧ linked s'
        ∧ max_size s' = max_size s
        ∧ (hit_count s', miss_count s', soft_miss_count s')
          = (hit_count s, miss_count s, soft_miss_count s).
Proof. apply update_dict_below. Qed.

Lemma update_from_dict_witness :
  ∃ s', update (E_dict {[ PyStr "a" := PyInt 1 ]}) {[ "b" := PyInt 2 ]}
          (blank 2) = Some (Returned tt, s')
        ∧ _get_value_map s'
          = Some (kmap PyStr ({[ "b" := PyInt 2 ]} : gmap string pyobj)
                  ∪ ({[ PyStr "a" := PyInt 1 ]} ∪ ∅))
        ∧ linked s'
        ∧ max_size s' = max_size (blank 2)
        ∧ (hit_count s', miss_count s', soft_miss_count s')
          = (hit_count (blank 2), miss_count (blank 2),
             soft_miss_count (blank 2)).
Proof.
  apply (update_from_dict {[ PyStr "a" := PyInt 1 ]} {[ "b" := PyInt 2 ]}
           (blank 2) ∅).
  - apply linked_blank.
  - vm_compute. discriminate.
  - reflexivity.
Defined.

(** [update] from a sequence of pairs, with room for all of it. *)
Lemma update_seq_below l kw s m :
  linked s →
  __len__ s + Z.of_nat (length l) + Z.of_nat (size kw) ≤ max_size s →
  _get_value_map s = Some m →
  ∃ s', update (E_pairs l) kw s = Some (Returned tt, s')
        ∧ _get_value_map s'
          = Some (kmap PyStr kw ∪ (list_to_map (reverse l) ∪ m))
        ∧ linked s'
        ∧ max_size s' = max_size s
        ∧ (hit_count s', miss_count s', soft_miss_count s')
          = (hit_count s, miss_count s, soft_miss_count s).
Proof.
  intros Hlinked Hroom Hvm.
  destruct (update_pairs_below l ∅ s m Hlinked)
    as (s1 & Hrun1 & Hvm1 & Hlinked1 & Hmax1 & Hlen1 & Hcnt1); [lia|done|].
  rewrite (foldl_insert_reverse fst snd) in Hvm1.
  assert ((λ x : pyobj * pyobj, (x.1, x.2)) <$> reverse l = reverse l) as Hid.
  { rewrite <- (list_fmap_id (reverse l)) at 2.
    apply list_fmap_ext. by intros ? [??]. }
  rewrite Hid in Hvm1.
  destruct (for_each_setitem_below (λ kv : string * pyobj, PyStr kv.1) snd
              (map_to_list kw) s1 (list_to_map (reverse l) ∪ m) Hlinked1)
    as (s2 & Hrun2 & Hvm2 & Hlinked2 & Hmax2 & Hlen2 & Hcnt2 & _);
    [rewrite length_map_to_list; lia|exact Hvm1|].
  rewrite foldl_insert_keywords in Hvm2.
  exists s2. unfold update. rewrite (bind_returned _ _ _ _ _ Hrun1).
  split; [done|]. split; [done|]. split; [done|]. split; congruence.
Qed.

(** [self.update(pairs, **kw)] for a sequence of pairs, when the cache
    has room for as many keys as there are pairs and keyword arguments:
    the call returns and, of two pairs with the same key, the later one
    counts; the keyword arguments override the pairs, and the pairs the
    former contents. *)
Theorem update_from_pairs l kw s m :
  linked s →
  __len__ s + Z.of_nat (length l) + Z.of_nat (size kw) ≤ max_size s →
  _get_value_map s = Some m →
  ∃ s', update (E_pairs l) kw s = Some (Returned tt, s')
        ∧ _get_value_map s'
          = Some (kmap PyStr kw ∪ (list_to_map (reverse l) ∪ m))
        ∧ linked s'
        ∧ max_size s' = max_size s
        ∧ (hit_count s', miss_count s', soft_miss_count s')
          = (hit_count s, miss_count s, soft_miss_count s).
Proof. apply update_seq_below. Qed.

Lemma update_from_pairs_witness :
  ∃ s', update (E_pairs [(PyStr "a", PyInt 1); (PyStr "a", PyInt 2)]) ∅
          (blank 2) = Some (Returned tt, s')
        ∧ _get_value_map s'
          = Some (kmap PyStr (∅ : gmap string pyobj)
                  ∪ (list_to_map
                       (reverse [(PyStr "a", PyInt 1); (PyStr "a", PyInt 2)])
                     ∪ ∅))
        ∧ linked s'
        ∧ max_size s' = max_size (blank 2)
        ∧ (hit_count s', miss_count s', soft_miss_count s')
          = (hit_count (blank 2), miss_count (blank 2),
             soft_miss_count (blank 2)).
Proof.
  apply (update_from_pairs [(PyStr "a", PyInt 1); (PyStr "a", PyInt 2)] ∅
           (blank 2) ∅).
  - apply linked_blank.
  - vm_compute. discriminate.
  - reflexivity.
Defined.

(** [LRU(max_size, values=d)] for a dictionary [d] of no more than
    [max_size] entries: the constructor returns a cache whose contents are
    [d], which compares equal to [d], with all counters at zero. *)
Theorem init_from_dict max_size on_miss d :
  len d ≤ max_size →
  ∃ s', __init__ max_size on_miss (Some (E_dict d)) = Some (Returned tt, s')
        ∧ _get_value_map s' = Some d
        ∧ __eq__ s' (Dict d) = Some true
        ∧ __len__ s' = len d
        ∧ LRU.max_size s' = max_size
        ∧ (hit_count s', miss_count s', soft_miss_count s') = (0, 0, 0).
Proof.
  intros Hroom.
  assert (∃ s', __init__ max_size on_miss (Some (E_dict d))
                  = Some (Returned tt, s')
                ∧ _get_value_map s' = Some d
                ∧ LRU.max_size s' = max_size
                ∧ (hit_count s', miss_count s', soft_miss_count s')
                  = (0, 0, 0)) as (s' & Hrun & Hvm & Hmax & Hcnt).
  { unfold __init__, truthy. case_bool_decide as Hd; cbn.
    - subst d. by exists (blank max_size).
    - destruct (update_dict_below d ∅ (blank max_size) ∅ (linked_blank _))
        as (s' & Hrun & Hvm & _ & Hmax & Hcnt).
      { unfold __len__, len in *. cbn. rewrite !map_size_empty. lia. }
      { reflexivity. }
      exists s'. split; [done|]. split; [|done].
      by rewrite kmap_empty, (left_id_L ∅ (∪)), (right_id_L ∅ (∪)) in Hvm. }
  exists s'. split; [done|]. split; [done|]. split.
  { cbn. rewrite (eq_dict_spec _ _ _ Hvm). by rewrite bool_decide_eq_true_2. }
  split; [|done]. symmetry. by apply value_map_size.
Qed.

Lemma init_from_dict_witness :
  ∃ s', __init__ 3 None (Some (E_dict {[ PyStr "a" := PyInt 1 ]}))
          = Some (Returned tt, s')
        ∧ _get_value_map s' = Some {[ PyStr "a" := PyInt 1 ]}
        ∧ __eq__ s' (Dict {[ PyStr "a" := PyInt 1 ]}) = Some true
        ∧ __len__ s' = len ({[ PyStr "a" := PyInt 1 ]} : gmap pyobj pyobj)
        ∧ LRU.max_size s' = 3
        ∧ (hit_count s', miss_count s', soft_miss_count s') = (0, 0, 0).
Proof.
  apply (init_from_dict 3 None {[ PyStr "a" := PyInt 1 ]}).
  vm_compute. discriminate.
Defined.

(** [LRU(max_size, values=pairs)] for a sequence of no more than
    [max_size] pairs: the constructor returns a cache whose contents are
    the pairs, the later of two pairs with the same key counting. *)
Theorem init_from_pairs max_size on_miss l :
  Z.of_nat (length l) ≤ max_size →
  ∃ s', __init__ max_size on_miss (Some (E_pairs l)) = Some (Returned tt, s')
        ∧ _get_value_map s' = Some (list_to_map (reverse l))
        ∧ __eq__ s' (Dict (list_to_map (reverse l))) = Some true
        ∧ LRU.max_size s' = max_size
        ∧ (hit_count s', miss_count s', soft_miss_count s') = (0, 0, 0).
Proof.
  intros Hroom.
  assert (∃ s', __init__ max_size on_miss (Some (E_pairs l))
                  = Some (Returned tt, s')
                ∧ _get_value_map s' = Some (list_to_map (reverse l))
                ∧ LRU.max_size s' = max_size
                ∧ (hit_count s', miss_count s', soft_miss_count s')
                  = (0, 0, 0)) as (s' & Hrun & Hvm & Hmax & Hcnt).
  { unfold __init__, truthy. case_bool_decide as Hl; cbn [negb].
    - subst l. by exists (blank max_size).
    - destruct (update_seq_below l ∅ (blank max_size) ∅ (linked_blank _))
        as (s' & Hrun & Hvm & _ & Hmax & Hcnt).
      { unfold __len__, len, blank. cbn [dict LRU.max_size].
        rewrite !map_size_empty. lia. }
      { reflexivity. }
      exists s'. split; [done|]. split; [|done].
      by rewrite kmap_empty, (left_id_L ∅ (∪)), (right_id_L ∅ (∪)) in Hvm. }
  exists s'. split; [done|]. split; [done|]. split; [|done].
  cbn. rewrite (eq_dict_spec _ _ _ Hvm). by rewrite bool_decide_eq_true_2.
Qed.

Lemma init_from_pairs_witness :
  ∃ s', __init__ 3 None
          (Some (E_pairs [(PyStr "a", PyInt 1); (PyStr "a", PyInt 2)]))
          = Some (Returned tt, s')
        ∧ _get_value_map s'
          = Some (list_to_map
                    (reverse [(PyStr "a", PyInt 1); (PyStr "a", PyInt 2)]))
        ∧ __eq__ s'
            (Dict (list_to_map
                    (reverse [(PyStr "a", PyInt 1); (PyStr "a", PyInt 2)])))
          = Some true
        ∧ LRU.max_size s' = 3
        ∧ (hit_count s', miss_count s', soft_miss_count s') = (0, 0, 0).
Proof.
  apply (init_from_pairs 3 None [(PyStr "a", PyInt 1); (PyStr "a", PyInt 2)]).
  vm_compute. discriminate.
Defined.

End lru_preload.

(** ** LRU: the first eviction *)

Section lru_first_eviction.
Import LRU.

(** The evicting assignment on a cache filled in order, on the contents:
    the key of the link after the root goes, the new pair comes. *)
Lemma setitem_evicts_oldest k1 n key value s m :
  filled k1 n s → linked s → keyed s →
  max_size s ≤ Z.of_nat n →
  _get_value_map s = Some m →
  ∃ s', __setitem__ key value s = Some (Returned tt, s')
        ∧ _get_value_map s' = Some (<[key:=value]> (delete k1 m))
        ∧ dict s' = <[key:=root s]> (delete k1 (dict s))
        ∧ max_size s' = max_size s.
Proof.
  intros (Hn & Hk1 & Hnone & r & f & Hr & Hne & _ & Hf & Hkey & Hpl).
  intros Hlinked [(r0 & Hr0 & Hkr0) Hkeyed] Hfull Hvm.
  assert (r0 = r) as -> by congruence.
  destruct (setitem_full key value s r f) as
    (o & s' & Hrun & Hroot & Hmax & _ & Hlk & Hgoes & _); [|done..|].
  { unfold __len__, len. lia. }
  rewrite Hkey in Hgoes. destruct (Hgoes Hk1) as [-> Hd].
  exists s'. split; [done|]. split; [|done].
  assert (∀ b, is_Some (links s !! b) → is_Some (links s' !! b)) as Hkeep.
  { intros b Hb. rewrite Hlk. apply lookup_insert_is_Some'. right.
    apply lookup_insert_is_Some'. by right. }
  assert (links s' !! root s = Some (Link (PREV r) (NEXT r) key value))
    as Hr'.
  { by rewrite Hlk, lookup_insert_ne, lookup_insert_eq. }
  apply value_map_stored_eq.
  - split.
    + eexists. rewrite Hroot. split; [exact Hr'|]. cbn. by apply Hkeep.
    + intros k b. rewrite Hd.
      intros [[<- <-]|[_ [_ Hk]%lookup_delete_Some]]%lookup_insert_Some.
      * by rewrite Hr'.
      * apply Hkeep. by apply (proj2 Hlinked k).
  - intros k. unfold stored. rewrite Hd.
    destruct (decide (k = key)) as [->|Hkk].
    { rewrite !lookup_insert_eq. cbn. by rewrite Hr'. }
    rewrite !lookup_insert_ne by done.
    destruct (decide (k = k1)) as [->|Hkk1].
    { by rewrite !lookup_delete_eq. }
    rewrite !lookup_delete_ne by done.
    rewrite (value_map_stored_inv s m k Hlinked Hvm). unfold stored.
    destruct (dict s !! k) as [b|] eqn:Hkb; [|done]. cbn.
    destruct (Hkeyed k b Hkb) as (l & Hl & Hkl).
    assert (b ≠ root s) as Hb1.
    { intros ->. assert (l = r) as -> by congruence. congruence. }
    assert (b ≠ NEXT r) as Hb2.
    { intros ->. assert (l = f) as -> by congruence. congruence. }
    by rewrite Hlk, !lookup_insert_ne.
Qed.

(** The defining behaviour, for every capacity [C = 1 + length kvs]: in a
    new cache, [C] assignments to distinct keys other than [None] fill the
    cache with exactly these pairs, and one more assignment to a further
    key returns, removes the pair assigned first and nothing else, and
    leaves [C] keys. *)
Theorem first_eviction_drops_oldest
    (kv0 : pyobj * pyobj) (kvs : list (pyobj * pyobj)) (kv : pyobj * pyobj) :
  NoDup (kv0 :: kvs ++ [kv]).*1 →
  PyNone ∉ (kv0 :: kvs ++ [kv]).*1 →
  ∃ s s',
    for_each (kv0 :: kvs) assign (blank (Z.of_nat (S (length kvs))))
      = Some (Returned tt, s)
    ∧ _get_value_map s = Some (list_to_map (kv0 :: kvs))
    ∧ assign kv s = Some (Returned tt, s')
    ∧ _get_value_map s' = Some (list_to_map (kvs ++ [kv]))
    ∧ dict s' !! kv0.1 = None
    ∧ __len__ s' = Z.of_nat (S (length kvs)).
Proof.
  intros Hnodup Hnone.
  rewrite fmap_cons, fmap_app in Hnodup, Hnone. cbn in Hnodup, Hnone.
  apply NoDup_cons in Hnodup as [Hk0 Hnodup].
  apply NoDup_app in Hnodup as (Hnodup & Hdisj & _).
  apply not_elem_of_cons in Hnone as [Hn0 Hnone].
  apply not_elem_of_app in Hnone as [Hnone Hnk].
  apply not_elem_of_app in Hk0 as [Hk0 Hk0k].
  assert (kv0.1 ≠ kv.1) as Hk0kv.
  { intros Heq. apply Hk0k. rewrite Heq. apply list_elem_of_singleton.
    reflexivity. }
  assert (kv.1 ∉ kvs.*1) as Hkvkvs.
  { intros Hin. apply (Hdisj _ Hin). by apply list_elem_of_singleton. }
  set (C := Z.of_nat (S (length kvs))).
  (* the structure of the queue after the fill *)
  destruct (setitem_first C kv0.1 kv0.2)
    as (s1 & a & Hrun1 & Hf1 & Hmax1 & Hd1); [unfold C; lia|done|].
  destruct (fill_more kv0.1 kvs 1 s1 Hf1) as (s2 & Hrun2 & Hf2 & Hmax2 & Hd2);
    [rewrite Hmax1; unfold C; lia|done|done| |].
  { intros k Hk. rewrite Hd1. apply lookup_singleton_ne. by intros <-. }
  assert (for_each (kv0 :: kvs) assign (blank C) = Some (Returned tt, s2))
    as Hfill.
  { cbn [for_each]. unfold assign at 1.
    by rewrite (bind_returned _ _ _ _ _ Hrun1). }
  (* its contents *)
  destruct (for_each_setitem_below fst snd (kv0 :: kvs) (blank C) ∅
              (linked_blank C))
    as (s2' & Hfill' & Hvm2 & Hlinked2 & _ & _ & _ & Hkeyed2).
  { unfold __len__, len, blank. cbn [dict max_size length].
    rewrite map_size_empty. unfold C. lia. }
  { reflexivity. }
  change (for_each (kv0 :: kvs) assign (blank C) = Some (Returned tt, s2'))
    in Hfill'.
  assert (s2' = s2) as -> by congruence.
  specialize (Hkeyed2 (keyed_blank C)).
  rewrite (foldl_insert_nodup fst snd) in Hvm2
    by (apply NoDup_cons; split; [exact Hk0|exact Hnodup]).
  assert ((λ x : pyobj * pyobj, (x.1, x.2)) <$> kv0 :: kvs = kv0 :: kvs)
    as Hid.
  { rewrite <- (list_fmap_id (kv0 :: kvs)) at 2.
    apply list_fmap_ext. by intros ? [??]. }
  rewrite Hid, (right_id_L ∅ (∪)) in Hvm2.
  (* the evicting assignment *)
  destruct (setitem_evicts_oldest kv0.1 _ kv.1 kv.2 s2
              (list_to_map (kv0 :: kvs)) Hf2 Hlinked2 Hkeyed2)
    as (s3 & Hrun3 & Hvm3 & Hd3 & Hmax3);
    [rewrite Hmax2, Hmax1; unfold C; lia|exact Hvm2|].
  exists s2, s3. split; [done|]. split; [done|]. split; [exact Hrun3|].
  split; [|split].
  - rewrite Hvm3. f_equal. destruct kv0 as [k0 v0], kv as [k v]. cbn.
    cbn in Hk0, Hkvkvs.
    rewrite delete_insert_eq, delete_id
      by (by apply not_elem_of_list_to_map_1).
    rewrite list_to_map_app. cbn. rewrite insert_empty.
    apply insert_union_singleton_r. by apply not_elem_of_list_to_map_1.
  - rewrite Hd3, lookup_insert_ne by done. apply lookup_delete_eq.
  - unfold __len__, len. rewrite Hd3.
    destruct Hf2 as (Hn2 & [b Hb] & _).
    rewrite map_size_insert_None, map_size_delete, Hb, Hn2; [cbn; lia|].
    rewrite lookup_delete_ne by done.
    apply Hd2; [done|]. rewrite Hd1. by apply lookup_singleton_ne.
Qed.

Lemma first_eviction_drops_oldest_witness :
  ∃ s s',
    for_each [(PyStr "hi", PyInt 0)] assign (blank (Z.of_nat 1))
      = Some (Returned tt, s)
    ∧ _get_value_map s = Some (list_to_map [(PyStr "hi", PyInt 0)])
    ∧ assign (PyStr "bye", PyInt 1) s = Some (Returned tt, s')
    ∧ _get_value_map s' = Some (list_to_map ([] ++ [(PyStr "bye", PyInt 1)]))
    ∧ dict s' !! (PyStr "hi", PyInt 0).1 = None
    ∧ __len__ s' = Z.of_nat 1.
Proof.
  apply (first_eviction_drops_oldest
           (PyStr "hi", PyInt 0) [] (PyStr "bye", PyInt 1));
    apply (bool_decide_unpack _); vm_compute; exact I.
Defined.

End lru_first_eviction.

(** ** LRU: comparison *)

Section lru_comparison.
Import LRU.

(** The comparison of two caches, by their value maps. *)
Lemma eq_cache_value_maps c1 c2 vm1 vm2 :
  _get_value_map c1 = Some vm1 →
  _get_value_map c2 = Some vm2 →
  __eq__ c1 (Cache c2) = Some (bool_decide (vm1 = vm2)).
Proof.
  intros H1 H2. cbn [__eq__].
  destruct (__len__ c2 =? __len__ c1) eqn:Hlen; cbn.
  - rewrite H1. cbn. apply (eq_dict_spec _ _ _ H2).
  - f_equal. symmetry. apply bool_decide_eq_false. intros ->.
    apply Z.eqb_neq in Hlen.
    by rewrite <- (value_map_size _ _ H1), <- (value_map_size _ _ H2) in Hlen.
Qed.

(** [==] between caches is an equivalence: a cache equals a distinct cache
    of the same contents, the answer does not depend on the side a cache
    stands on, and two caches equal to a third are equal.  [!=] gives the
    opposite answer, and comparing with another cache gives what comparing
    with the contents of that cache as a plain dictionary gives. *)
Theorem lru_eq_equivalence c1 c2 c3 vm1 vm2 vm3 :
  _get_value_map c1 = Some vm1 →
  _get_value_map c2 = Some vm2 →
  _get_value_map c3 = Some vm3 →
  __eq__ c1 (Cache c1) = Some true
  ∧ __eq__ c1 (Cache c2) = __eq__ c2 (Cache c1)
  ∧ (__eq__ c1 (Cache c2) = Some true → __eq__ c2 (Cache c3) = Some true →
     __eq__ c1 (Cache c3) = Some true)
  ∧ __ne__ c1 (Cache c2) = negb <$> __eq__ c2 (Cache c1)
  ∧ __ne__ c1 (Cache c2) = Some (bool_decide (vm1 ≠ vm2))
  ∧ __eq__ c1 (Cache c2) = __eq__ c1 (Dict vm2).
Proof.
  intros H1 H2 H3.
  pose proof (eq_cache_value_maps c1 c2 vm1 vm2 H1 H2) as H12.
  pose proof (eq_cache_value_maps c2 c1 vm2 vm1 H2 H1) as H21.
  assert (bool_decide (vm2 = vm1) = bool_decide (vm1 = vm2)) as Hsym.
  { apply bool_decide_ext. split; congruence. }
  split; [|split; [|split; [|split; [|split]]]].
  - rewrite (eq_cache_value_maps c1 c1 vm1 vm1 H1 H1).
    by rewrite bool_decide_eq_true_2.
  - by rewrite H12, H21, Hsym.
  - rewrite H12, (eq_cache_value_maps c2 c3 vm2 vm3 H2 H3),
      (eq_cache_value_maps c1 c3 vm1 vm3 H1 H3).
    intros [= Ha%bool_decide_eq_true] [= Hb%bool_decide_eq_true].
    rewrite bool_decide_eq_true_2; congruence.
  - unfold __ne__. by rewrite H12, H21, Hsym.
  - unfold __ne__. rewrite H12. cbn. f_equal.
    by rewrite bool_decide_not.
  - rewrite H12. cbn [__eq__]. rewrite (eq_dict_spec _ _ _ H1).
    by rewrite Hsym.
Qed.

Lemma lru_eq_equivalence_witness :
  let a := PyStr "a" in
  let c1 := mk 0 0 0 3 0%nat
              {[ 0%nat := Link 1%nat 1%nat PyNone PyNone;
                 1%nat := Link 0%nat 0%nat a (PyInt 1) ]}
              {[ a := 1%nat ]} in
  let c2 := blank 5 in
  let vm1 : gmap pyobj pyobj := {[ a := PyInt 1 ]} in
  let vm2 : gmap pyobj pyobj := ∅ in
  __eq__ c1 (Cache c1) = Some true
  ∧ __eq__ c1 (Cache c2) = __eq__ c2 (Cache c1)
  ∧ (__eq__ c1 (Cache c2) = Some true → __eq__ c2 (Cache c1) = Some true →
     __eq__ c1 (Cache c1) = Some true)
  ∧ __ne__ c1 (Cache c2) = negb <$> __eq__ c2 (Cache c1)
  ∧ __ne__ c1 (Cache c2) = Some (bool_decide (vm1 ≠ vm2))
  ∧ __eq__ c1 (Cache c2) = __eq__ c1 (Dict vm2).
Proof.
  intros a c1 c2 vm1 vm2.
  apply (lru_eq_equivalence c1 c2 c1 vm1 vm2 vm1); vm_compute; reflexivity.
Defined.

End lru_comparison.

(** ** LRU: deletion and the queue *)

Section lru_delete_stale.
Import LRU.

(** One key assigned to a new cache and deleted: the index is empty and
    the link of the key is still the one after the root. *)
Lemma set_del_stale C a v :
  0 < C →
  ∃ s1 la s2,
    __setitem__ a v (blank C) = Some (Returned tt, s1)
    ∧ dict s1 !! a = Some la
    ∧ __delitem__ a s1 = Some (Returned tt, s2)
    ∧ dict s2 !! a = None
    ∧ la ∈ queue_links s2
    ∧ links s2 !! la = Some (Link (root s2) (root s2) a v)
    ∧ max_size s2 = C
    ∧ stale a 0 s2.
Proof.
  intros HC.
  destruct (setitem_appends a v (blank C)
              (Link 0%nat 0%nat PyNone PyNone) (Link 0%nat 0%nat PyNone PyNone))
    as (la & s1 & Hla & Hrun & Hd & Hroot & Hmax & _ & Hl & Hr' & _);
    [unfold __len__, len, blank; cbn; rewrite map_size_empty; lia
    |reflexivity|reflexivity|].
  destruct Hr' as (r' & Hr' & Hpr' & _ & _ & Hnr').
  cbn in Hroot, Hmax, Hl, Hr', Hnr', Hd, Hla.
  assert (la ≠ 0%nat) as Hne.
  { intros ->. by rewrite lookup_singleton_eq in Hla. }
  assert (dict s1 !! a = Some la) as Hin by (by rewrite Hd, lookup_insert_eq).
  destruct (proj1 (delitem_index_only s1 a) la Hin)
    as (s2 & Hdel & Hd2 & Hgone & Hlk2 & Hroot2 & _ & Hcnt2).
  assert (max_size s2 = C) as Hmax2 by congruence.
  exists s1, la, s2.
  split; [done|]. split; [done|]. split; [done|]. split; [done|].
  rewrite Hroot2, Hroot.
  split; [|split; [by rewrite Hlk2|split; [done|]]].
  - unfold queue_links. rewrite Hroot2, Hroot, Hlk2, Hr', Hnr'.
    destruct (size (links s1)) as [|n] eqn:Hsize.
    { apply map_size_empty_inv in Hsize. by rewrite Hsize in Hr'. }
    cbn [walk]. rewrite decide_False by done. apply list_elem_of_here.
  - split; [by rewrite Hd2, Hd, delete_insert_eq, delete_empty|].
    split; [done|].
    exists r', (Link 0%nat 0%nat a v). rewrite Hroot2, Hroot, Hlk2.
    split; [done|]. rewrite Hnr', Hpr'.
    split; [done|]. split; [done|]. split; [done|]. split; [done|].
    by rewrite Hl.
Qed.

(** Below capacity an assignment to another key leaves the stale link
    where it is. *)
Lemma stale_more a n key value s :
  stale a n s → Z.of_nat n < max_size s →
  key ≠ a → dict s !! key = None →
  ∃ s', __setitem__ key value s = Some (Returned tt, s')
        ∧ stale a (S n) s'
        ∧ max_size s' = max_size s
        ∧ (∀ k, k ≠ key → dict s' !! k = dict s !! k).
Proof.
  intros (Hn & Hgone & r & f & Hr & Hnr & Hpr & Hf & Hkey & [pl Hpl]).
  intros Hroom Hka Hfresh.
  destruct (setitem_appends key value s r pl)
    as (a0 & s' & Ha0 & Hrun & Hd & Hroot & Hmax & _ & Hl & Hr' & Hothers);
    [unfold __len__, len; lia|done..|].
  destruct Hr' as (r' & Hr' & Hpr' & _ & _ & Hnr').
  rewrite decide_False in Hnr' by done.
  destruct (Hothers (NEXT r) f Hnr Hf) as (f' & Hf' & Hkf' & _).
  assert (a0 ≠ root s) as Hne by (intros ->; by rewrite Hr in Ha0).
  exists s'. split; [done|]. split; [|split; [done|]].
  - split; [by rewrite Hd, map_size_insert_None, Hn|].
    split; [by rewrite Hd, lookup_insert_ne|].
    exists r', f'. rewrite Hroot, Hnr', Hpr'.
    split; [done|]. split; [done|]. split; [done|]. split; [done|].
    split; [congruence|]. by rewrite Hl.
  - intros k Hk. by rewrite Hd, lookup_insert_ne.
Qed.

(** Filling the cache with other keys leaves the stale link where it is. *)
Lemma stale_fill a (kvs : list (pyobj * pyobj)) : ∀ n s,
  stale a n s →
  Z.of_nat (n + length kvs) ≤ max_size s →
  NoDup kvs.*1 → a ∉ kvs.*1 →
  (∀ k, k ∈ kvs.*1 → dict s !! k = None) →
  ∃ s', for_each kvs assign s = Some (Returned tt, s')
        ∧ stale a (n + length kvs) s'
        ∧ max_size s' = max_size s.
Proof.
  induction kvs as [|[k v] kvs IH]; intros n s Hstale Hroom Hnodup Ha Hfresh.
  - exists s. cbn. by rewrite Nat.add_0_r.
  - cbn in Hroom, Hnodup, Ha, Hfresh.
    apply NoDup_cons in Hnodup as [Hk Hnodup].
    apply not_elem_of_cons in Ha as [Hak Ha].
    destruct (stale_more a n k v s Hstale) as (s1 & Hrun & Hs1 & Hmax & Hd);
      [lia|done|apply Hfresh; left|].
    destruct (IH (S n) s1 Hs1) as (s' & Hrun' & Hs' & Hmax');
      [rewrite Hmax; lia|done|done| |].
    { intros k' Hk'. rewrite Hd by (by intros ->). apply Hfresh. by right. }
    exists s'. cbn [for_each length]. unfold assign at 1. cbn [fst snd].
    rewrite (bind_returned _ _ _ _ _ Hrun).
    split; [exact Hrun'|].
    replace (n + S (length kvs))%nat with (S n + length kvs)%nat by lia.
    split; [done|congruence].
Qed.

(** C6, where the code departs from it.  [LRU] defines no [__delitem__]:
    [del self[key]] is the dictionary's, which removes the key from the
    index and leaves its link in the queue, reached from the root, with
    its key and value in place.  The eviction branch of [__setitem__]
    deletes the key of the oldest link from the index without a test, so
    the stale link breaks it.  For every capacity [C = 1 + length kvs]: in
    a new cache, after a key [a] is assigned and deleted and [C] other
    distinct keys are assigned, whatever is assigned next raises
    [KeyError(a)] and no key is evicted.  The loop of [update] deletes a
    present key to queue it anew; as the old link stays, in a cache of
    capacity 2 the key assigned by [update] and read last is the one the
    next assignment evicts, and the key used least recently stays. *)
Theorem delitem_leaves_stale_link
    (a v : pyobj) (kv1 : pyobj * pyobj) (kvs : list (pyobj * pyobj))
    (kv' : pyobj * pyobj) :
  NoDup (kv1 :: kvs).*1 →
  a ∉ (kv1 :: kvs).*1 →
  (∃ s1 la s2 s3 s4,
     __init__ (Z.of_nat (S (length kvs))) None None
       = Some (Returned tt, blank (Z.of_nat (S (length kvs))))
     ∧ __setitem__ a v (blank (Z.of_nat (S (length kvs))))
       = Some (Returned tt, s1)
     ∧ dict s1 !! a = Some la
     ∧ __delitem__ a s1 = Some (Returned tt, s2)
     ∧ dict s2 !! a = None
     ∧ la ∈ queue_links s2
     ∧ links s2 !! la = Some (Link (root s2) (root s2) a v)
     ∧ for_each (kv1 :: kvs) assign s2 = Some (Returned tt, s3)
     ∧ __len__ s3 = max_size s3
     ∧ assign kv' s3 = Some (Raised (KeyError a), s4)
     ∧ dict s4 = dict s3)
  ∧ (∃ s s1 s',
       (__setitem__ (PyStr "a") (PyInt 1) ;;
        update (E_pairs [(PyStr "a", PyInt 5)]) ∅ ;;
        __setitem__ (PyStr "b") (PyInt 2)) (blank 2)
         = Some (Returned tt, s)
       ∧ __getitem__ (PyStr "a") s = Some (Returned (PyInt 5), s1)
       ∧ __setitem__ (PyStr "c") (PyInt 3) s1 = Some (Returned tt, s')
       ∧ _get_value_map s'
         = Some {[ PyStr "b" := PyInt 2; PyStr "c" := PyInt 3 ]}).
Proof.
  intros Hnodup Ha. split.
  - set (C := Z.of_nat (S (length kvs))).
    destruct (set_del_stale C a v)
      as (s1 & la & s2 & Hset & Hin & Hdel & Hgone & Hq & Hl & Hmax2 & Hstale);
      [unfold C; lia|].
    destruct (stale_fill a (kv1 :: kvs) 0 s2 Hstale)
      as (s3 & Hfill & Hs3 & Hmax3); [rewrite Hmax2; unfold C; cbn; lia|done..| |].
    { intros k _. by destruct Hstale as (Hn%map_size_empty_inv & _); rewrite Hn. }
    destruct Hs3 as (Hn3 & Hgone3 & r & f & Hr & Hnr & _ & Hf & Hkey & _).
    assert (__len__ s3 = max_size s3) as Hfull.
    { unfold __len__, len. rewrite Hn3, Hmax3, Hmax2. unfold C. cbn. lia. }
    destruct (setitem_full kv'.1 kv'.2 s3 r f)
      as (o & s4 & Hrun & _ & _ & _ & _ & _ & Hraise); [lia|done..|].
    rewrite Hkey in Hraise. destruct (Hraise Hgone3) as [-> Hd4].
    exists s1, la, s2, s3, s4.
    split; [reflexivity|]. split; [done|]. split; [done|]. split; [done|].
    split; [done|]. split; [done|]. split; [done|]. split; [done|].
    split; [done|]. split; [exact Hrun|done].
  - do 3 eexists.
    split; [vm_compute; reflexivity|].
    split; [vm_compute; reflexivity|].
    split; [vm_compute; reflexivity|].
    vm_compute; reflexivity.
Qed.

Lemma delitem_leaves_stale_link_witness :
  let a := PyStr "a" in
  let C := Z.of_nat (S (length [(PyStr "c", PyInt 3)])) in
  (∃ s1 la s2 s3 s4,
     __init__ C None None = Some (Returned tt, blank C)
     ∧ __setitem__ a (PyInt 1) (blank C) = Some (Returned tt, s1)
     ∧ dict s1 !! a = Some la
     ∧ __delitem__ a s1 = Some (Returned tt, s2)
     ∧ dict s2 !! a = None
     ∧ la ∈ queue_links s2
     ∧ links s2 !! la = Some (Link (root s2) (root s2) a (PyInt 1))
     ∧ for_each [(PyStr "b", PyInt 2); (PyStr "c", PyInt 3)] assign s2
       = Some (Returned tt, s3)
     ∧ __len__ s3 = max_size s3
     ∧ assign (PyStr "d", PyInt 4) s3 = Some (Raised (KeyError a), s4)
     ∧ dict s4 = dict s3)
  ∧ (∃ s s1 s',
       (__setitem__ (PyStr "a") (PyInt 1) ;;
        update (E_pairs [(PyStr "a", PyInt 5)]) ∅ ;;
        __setitem__ (PyStr "b") (PyInt 2)) (blank 2)
         = Some (Returned tt, s)
       ∧ __getitem__ (PyStr "a") s = Some (Returned (PyInt 5), s1)
       ∧ __setitem__ (PyStr "c") (PyInt 3) s1 = Some (Returned tt, s')
       ∧ _get_value_map s'
         = Some {[ PyStr "b" := PyInt 2; PyStr "c" := PyInt 3 ]}).
Proof.
  intros a C.
  apply (delitem_leaves_stale_link (PyStr "a") (PyInt 1) (PyStr "b", PyInt 2)
           [(PyStr "c", PyInt 3)] (PyStr "d", PyInt 4));
    apply (bool_decide_unpack _); vm_compute; exact I.
Defined.

End lru_delete_stale.
